(** * Expense tracker: the state and handlers of [App] (src/App.js)

    The component keeps three pieces of state, [expenses], [formData] and
    [editingId], and changes them only through its event handlers.  The
    handlers are embedded as pure functions from the state a render closed
    over to the state React commits next.  What a handler reads from
    outside the component is an argument of its embedding: the value of
    [Date.now()], the answer of [window.confirm], the name and value of the
    input that changed.  The two effects that talk to [localStorage] are
    embedded further down, together with the part of [JSON.stringify] and
    [JSON.parse] they rely on.

    Numbers that are integral, as the ids are, are integers of [Z]; strings
    are lists of UTF-16 code units. *)

From Stdlib Require Import String Ascii Bool ZArith NArith List Sorted Lia.
Import ListNotations.

Open Scope Z_scope.

(** ** JavaScript strings

    A JavaScript string is a sequence of UTF-16 code units.  [str] turns a
    literal of this file into that sequence. *)

#[warnings="-notation-for-abbreviation"]
Notation code_unit := N (only parsing).
#[warnings="-notation-for-abbreviation"]
Notation jsstring := (list N) (only parsing).

Definition str (s : string) : jsstring :=
  map N_of_ascii (list_ascii_of_string s).

(** The same, with an apostrophe standing for a double quote, to write
    JSON text. *)
Definition qstr (s : string) : jsstring :=
  map (fun c => if (c =? 39)%N then 34%N else c) (str s).

(** Truthiness of a string: only the empty string is falsy. *)
Definition truthy (s : jsstring) : bool :=
  match s with
  | [] => false
  | _ :: _ => true
  end.

(** ** Data *)

Module FormData.

Record t := mk { amount : jsstring; date : jsstring; note : jsstring }.

End FormData.

Module Expense.

(** [id] is what [Date.now()] returned: an integral number. *)
Record t := mk { id : Z; amount : jsstring; date : jsstring; note : jsstring }.

End Expense.

Definition INITIAL_FORM_STATE : FormData.t :=
  FormData.mk [] [] [].

Record AppState := mkApp {
  expenses : list Expense.t;
  formData : FormData.t;
  editingId : option Z
}.

(** [useState([])], [useState(INITIAL_FORM_STATE)], [useState(null)]. *)
Definition initialState : AppState :=
  mkApp [] INITIAL_FORM_STATE None.

(** The three inputs the form renders; [e.target.name] is one of them. *)
Inductive FieldName := Amount | Date | Note.

(** ** Handlers *)

(** [{ ...prevData, [name]: value }] *)
Definition setField (name : FieldName) (value : jsstring) (d : FormData.t)
  : FormData.t :=
  match name with
  | Amount => FormData.mk value (FormData.date d) (FormData.note d)
  | Date => FormData.mk (FormData.amount d) value (FormData.note d)
  | Note => FormData.mk (FormData.amount d) (FormData.date d) value
  end.

Definition handleInputChange (name : FieldName) (value : jsstring)
    (st : AppState) : AppState :=
  mkApp (expenses st) (setField name value (formData st)) (editingId st).

Definition resetForm (st : AppState) : AppState :=
  mkApp (expenses st) INITIAL_FORM_STATE None.

(** [{ ...expense, ...formData }]: the form's three fields win, [id] stays. *)
Definition spreadForm (expense : Expense.t) (d : FormData.t) : Expense.t :=
  Expense.mk (Expense.id expense)
             (FormData.amount d) (FormData.date d) (FormData.note d).

(** [{ id: Date.now(), ...formData }] *)
Definition newExpense (now : Z) (d : FormData.t) : Expense.t :=
  Expense.mk now (FormData.amount d) (FormData.date d) (FormData.note d).

(** What the user sees of a submission: the alert of the validation, or
    nothing. *)
Inductive SubmitOutcome :=
| Alert (msg : string)
| Submitted.

Definition missingField (d : FormData.t) : bool :=
  negb (truthy (FormData.amount d))
  || negb (truthy (FormData.date d))
  || negb (truthy (FormData.note d)).

(** [now] is the value [Date.now()] has when the handler runs; only the
    add branch reads it. *)
Definition handleFormSubmit (now : Z) (st : AppState)
  : SubmitOutcome * AppState :=
  if missingField (formData st) then
    (Alert "Please fill out all fields.", st)
  else
    let st' :=
      match editingId st with
      | Some eid =>
          let updatedExpenses :=
            map (fun expense =>
                   if Expense.id expense =? eid
                   then spreadForm expense (formData st)
                   else expense)
                (expenses st) in
          mkApp updatedExpenses (formData st) (editingId st)
      | None =>
          mkApp (newExpense now (formData st) :: expenses st)
                (formData st) (editingId st)
      end in
    (Submitted, resetForm st').

Definition handleEditClick (expense : Expense.t) (st : AppState) : AppState :=
  mkApp (expenses st)
        (FormData.mk (Expense.amount expense) (Expense.date expense)
                     (Expense.note expense))
        (Some (Expense.id expense)).

(** [confirmed] is the answer of [window.confirm]. *)
Definition handleDeleteClick (id : Z) (confirmed : bool) (st : AppState)
  : AppState :=
  if confirmed then
    let updatedExpenses :=
      filter (fun expense => negb (Expense.id expense =? id)) (expenses st) in
    mkApp updatedExpenses (formData st) (editingId st)
  else st.

(** ** Sessions: what a user can do to the mounted component *)

Inductive Event :=
| InputChange (name : FieldName) (value : jsstring)
| FormSubmit (now : Z)
| EditClick (expense : Expense.t)
| DeleteClick (id : Z) (confirmed : bool)
| CancelClick.

Definition step (st : AppState) (ev : Event) : AppState :=
  match ev with
  | InputChange name value => handleInputChange name value st
  | FormSubmit now => snd (handleFormSubmit now st)
  | EditClick expense => handleEditClick expense st
  | DeleteClick id confirmed => handleDeleteClick id confirmed st
  | CancelClick => resetForm st
  end.

Definition run (evs : list Event) (st : AppState) : AppState :=
  fold_left step evs st.

(** The clock readings of the submissions of a session, in order. *)
Fixpoint timestamps (evs : list Event) : list Z :=
  match evs with
  | [] => []
  | FormSubmit now :: evs' => now :: timestamps evs'
  | _ :: evs' => timestamps evs'
  end.

Definition ids (l : list Expense.t) : list Z := map Expense.id l.

(** Typing a draft into the three inputs of the form. *)
Definition fillForm (d : FormData.t) : list Event :=
  [InputChange Amount (FormData.amount d);
   InputChange Date (FormData.date d);
   InputChange Note (FormData.note d)].

(** ** JSON text

    [JSON.parse] and [JSON.stringify] are built into the language; what
    follows is their ECMAScript definition, restricted on the printing side
    to the values [expenses] can hold (an array of objects with one
    integral number and three strings), and complete on the parsing side,
    since the stored text is arbitrary. *)

Open Scope N_scope.

#[warnings="-register-all"]
Inductive json :=
| JNull
| JBool (b : bool)
| JNum (m e : Z)   (* the decimal m * 10^e as written, not rounded *)
| JStr (s : jsstring)
| JArr (elements : list json)
| JObj (members : list (jsstring * json)).

(** Going on when a step succeeded, giving up when it failed. *)
Notation "'let?' p ':=' a 'in' b" :=
  (match a with
   | Some p => b
   | None => None
   end) (at level 10, p pattern, a at level 200, b at level 200).

Fixpoint jsstring_eqb (a b : jsstring) : bool :=
  match a, b with
  | [], [] => true
  | x :: a', y :: b' => (x =? y) && jsstring_eqb a' b'
  | _, _ => false
  end.

(** [CreateDataProperty]: a repeated key keeps its place and takes the
    later value.  Members are kept in the order of the text; the order in
    which an object enumerates its keys plays no part below. *)
Fixpoint obj_set (k : jsstring) (v : json) (o : list (jsstring * json))
  : list (jsstring * json) :=
  match o with
  | [] => [(k, v)]
  | (k', v') :: o' =>
      if jsstring_eqb k k' then (k', v) :: o' else (k', v') :: obj_set k v o'
  end.

(** *** Characters *)

Definition is_ws (c : code_unit) : bool :=
  (c =? 9) || (c =? 10) || (c =? 13) || (c =? 32).

Definition is_digit (c : code_unit) : bool := (48 <=? c) && (c <=? 57).

(** Leading and trailing surrogates. *)
Definition is_high (c : code_unit) : bool := (55296 <=? c) && (c <=? 56319).
Definition is_low (c : code_unit) : bool := (56320 <=? c) && (c <=? 57343).

Definition hex_digit (v : N) : code_unit :=
  if v <? 10 then 48 + v else 87 + v.

Definition hex_value (c : code_unit) : option N :=
  if (48 <=? c) && (c <=? 57) then Some (c - 48)
  else if (97 <=? c) && (c <=? 102) then Some (c - 87)
  else if (65 <=? c) && (c <=? 70) then Some (c - 55)
  else None.

(** *** Printing *)

(** [UnicodeEscape]: backslash, u, four lower-case hexadecimal digits. *)
Definition unicode_escape (c : code_unit) : jsstring :=
  [92; 117; hex_digit (c / 4096); hex_digit ((c / 256) mod 16);
   hex_digit ((c / 16) mod 16); hex_digit (c mod 16)].

(** One code point that is not a surrogate. *)
Definition quote_unit (c : code_unit) : jsstring :=
  if c =? 8 then [92; 98]
  else if c =? 9 then [92; 116]
  else if c =? 10 then [92; 110]
  else if c =? 12 then [92; 102]
  else if c =? 13 then [92; 114]
  else if c =? 34 then [92; 34]
  else if c =? 92 then [92; 92]
  else if c <? 32 then unicode_escape c
  else [c].

(** The string is read code point by code point: a leading surrogate
    followed by a trailing one is a pair and is copied, any other
    surrogate is escaped. *)
Fixpoint quote_units (s : jsstring) : jsstring :=
  match s with
  | [] => []
  | c :: rest =>
      if is_high c then
        match rest with
        | d :: rest' =>
            if is_low d then c :: d :: quote_units rest'
            else unicode_escape c ++ quote_units rest
        | [] => unicode_escape c
        end
      else if is_low c then unicode_escape c ++ quote_units rest
      else quote_unit c ++ quote_units rest
  end.

Definition QuoteJSONString (s : jsstring) : jsstring :=
  34 :: quote_units s ++ [34].

(** Decimal digits, least significant first. *)
Fixpoint digits_le (fuel : nat) (n : N) : list N :=
  match fuel with
  | O => []
  | S fuel' =>
      n mod 10 :: (if n / 10 =? 0 then [] else digits_le fuel' (n / 10))
  end.

Definition digits (n : N) : jsstring :=
  map (fun d => 48 + d) (rev (digits_le (S (N.to_nat (N.size n))) n)).

(** [Number::toString] of an integral number below 10^21 in size. *)
Definition number_to_string (z : Z) : jsstring :=
  match z with
  | Zneg p => 45 :: digits (Npos p)
  | _ => digits (Z.to_N z)
  end.

(** [SerializeJSONObject] of an expense: its own properties in creation
    order, no gap. *)
Definition stringify_expense (x : Expense.t) : jsstring :=
  str "{"
  ++ QuoteJSONString (str "id") ++ str ":" ++ number_to_string (Expense.id x)
  ++ str ","
  ++ QuoteJSONString (str "amount") ++ str ":"
  ++ QuoteJSONString (Expense.amount x)
  ++ str ","
  ++ QuoteJSONString (str "date") ++ str ":"
  ++ QuoteJSONString (Expense.date x)
  ++ str ","
  ++ QuoteJSONString (str "note") ++ str ":"
  ++ QuoteJSONString (Expense.note x)
  ++ str "}".

Fixpoint join_commas (parts : list jsstring) : jsstring :=
  match parts with
  | [] => []
  | [p] => p
  | p :: parts' => p ++ 44 :: join_commas parts'
  end.

(** [JSON.stringify(expenses)] *)
Definition JSON_stringify (l : list Expense.t) : jsstring :=
  91 :: join_commas (map stringify_expense l) ++ [93].

(** The value an expense is, and the array [expenses] is. *)
Definition expense_to_json (x : Expense.t) : json :=
  JObj [(str "id", JNum (Expense.id x) 0);
        (str "amount", JStr (Expense.amount x));
        (str "date", JStr (Expense.date x));
        (str "note", JStr (Expense.note x))].

Definition expenses_to_json (l : list Expense.t) : json :=
  JArr (map expense_to_json l).

(** *** Parsing *)

Fixpoint skip_ws (s : jsstring) : jsstring :=
  match s with
  | c :: rest => if is_ws c then skip_ws rest else s
  | [] => []
  end.

(** The next token is the single character [c]. *)
Definition expect (c : code_unit) (s : jsstring) : option jsstring :=
  match skip_ws s with
  | x :: rest => if x =? c then Some rest else None
  | [] => None
  end.

Fixpoint strip_prefix (p s : jsstring) : option jsstring :=
  match p, s with
  | [], _ => Some s
  | x :: p', y :: s' => if x =? y then strip_prefix p' s' else None
  | _ :: _, [] => None
  end.

Definition hex4 (a b c d : code_unit) : option code_unit :=
  let? x3 := hex_value a in let? x2 := hex_value b in
  let? x1 := hex_value c in let? x0 := hex_value d in
  Some (4096 * x3 + 256 * x2 + 16 * x1 + x0).

(** The character after a backslash, [u] apart. *)
Definition unescape (e : code_unit) : option code_unit :=
  if e =? 34 then Some 34
  else if e =? 92 then Some 92
  else if e =? 47 then Some 47
  else if e =? 98 then Some 8
  else if e =? 102 then Some 12
  else if e =? 110 then Some 10
  else if e =? 114 then Some 13
  else if e =? 116 then Some 9
  else None.

(** The characters of a string literal, after its opening quote, up to
    and including the closing one. *)
Fixpoint parse_chars (s : jsstring) : option (jsstring * jsstring) :=
  match s with
  | [] => None
  | c :: rest =>
      if c =? 34 then Some ([], rest)
      else if c =? 92 then
        match rest with
        | [] => None
        | e :: rest1 =>
            if e =? 117 then
              match rest1 with
              | h3 :: h2 :: h1 :: h0 :: rest2 =>
                  let? u := hex4 h3 h2 h1 h0 in
                  let? (cs, r) := parse_chars rest2 in
                  Some (u :: cs, r)
              | _ => None
              end
            else
              let? u := unescape e in
              let? (cs, r) := parse_chars rest1 in
              Some (u :: cs, r)
        end
      else if c <? 32 then None
      else
        let? (cs, r) := parse_chars rest in
        Some (c :: cs, r)
  end.

(** The longest run of decimal digits, as digit values. *)
Fixpoint span_digits (s : jsstring) : list N * jsstring :=
  match s with
  | c :: rest =>
      if is_digit c then
        let (ds, r) := span_digits rest in (c - 48 :: ds, r)
      else ([], s)
  | [] => ([], [])
  end.

Definition digits_value (ds : list N) : N :=
  fold_left (fun acc d => 10 * acc + d) ds 0.

(** [0], or a digit from 1 to 9 and the digits after it. *)
Definition parse_int_part (s : jsstring) : option (N * jsstring) :=
  match s with
  | c :: rest =>
      if c =? 48 then Some (0, rest)
      else if is_digit c then
        let (ds, r) := span_digits s in Some (digits_value ds, r)
      else None
  | [] => None
  end.

(** A point and at least one digit, or nothing. *)
Definition parse_frac (s : jsstring) : option (list N * jsstring) :=
  match s with
  | c :: rest =>
      if c =? 46 then
        match span_digits rest with
        | ([], _) => None
        | (ds, r) => Some (ds, r)
        end
      else Some ([], s)
  | [] => Some ([], [])
  end.

(** [e] or [E], a sign or none, and at least one digit; or nothing. *)
Definition parse_exp (s : jsstring) : option (Z * jsstring) :=
  match s with
  | c :: rest =>
      if (c =? 101) || (c =? 69) then
        let '(neg, r1) :=
          match rest with
          | x :: rest' =>
              if x =? 45 then (true, rest')
              else if x =? 43 then (false, rest')
              else (false, rest)
          | [] => (false, rest)
          end in
        match span_digits r1 with
        | ([], _) => None
        | (ds, r2) =>
            let v := Z.of_N (digits_value ds) in
            Some (if neg then (- v)%Z else v, r2)
        end
      else Some (0%Z, s)
  | [] => Some (0%Z, [])
  end.

Definition parse_number (s : jsstring) : option (json * jsstring) :=
  let '(neg, s1) :=
    match s with
    | c :: rest => if c =? 45 then (true, rest) else (false, s)
    | [] => (false, s)
    end in
  let? (i, s2) := parse_int_part s1 in
  let? (fs, s3) := parse_frac s2 in
  let? (e, s4) := parse_exp s3 in
  let m := Z.of_N (i * 10 ^ N.of_nat (length fs) + digits_value fs) in
  Some (JNum (if neg then (- m)%Z else m) (e - Z.of_nat (length fs))%Z, s4).

(** One JSON value and the text after it.  [parse_elements] reads the
    elements of a non-empty array after its bracket, [parse_members] the
    members of a non-empty object after its brace.  Every call spends one
    unit of [fuel]. *)
Fixpoint parse_value (fuel : nat) (s : jsstring) {struct fuel}
  : option (json * jsstring) :=
  match fuel with
  | O => None
  | S fuel' =>
      match skip_ws s with
      | [] => None
      | c :: rest =>
          if c =? 34 then
            let? (x, r) := parse_chars rest in Some (JStr x, r)
          else if c =? 91 then
            match expect 93 rest with
            | Some r => Some (JArr [], r)
            | None =>
                let? (vs, r) := parse_elements fuel' rest in Some (JArr vs, r)
            end
          else if c =? 123 then
            match expect 125 rest with
            | Some r => Some (JObj [], r)
            | None =>
                let? (o, r) := parse_members fuel' rest [] in Some (JObj o, r)
            end
          else if c =? 110 then
            let? r := strip_prefix (str "ull") rest in Some (JNull, r)
          else if c =? 116 then
            let? r := strip_prefix (str "rue") rest in Some (JBool true, r)
          else if c =? 102 then
            let? r := strip_prefix (str "alse") rest in Some (JBool false, r)
          else parse_number (c :: rest)
      end
  end

with parse_elements (fuel : nat) (s : jsstring) {struct fuel}
  : option (list json * jsstring) :=
  match fuel with
  | O => None
  | S fuel' =>
      let? (v, r) := parse_value fuel' s in
      match expect 44 r with
      | Some r' =>
          let? (vs, r'') := parse_elements fuel' r' in Some (v :: vs, r'')
      | None => let? r' := expect 93 r in Some ([v], r')
      end
  end

with parse_members (fuel : nat) (s : jsstring)
    (acc : list (jsstring * json)) {struct fuel}
  : option (list (jsstring * json) * jsstring) :=
  match fuel with
  | O => None
  | S fuel' =>
      let? r0 := expect 34 s in
      let? (k, r1) := parse_chars r0 in
      let? r2 := expect 58 r1 in
      let? (v, r3) := parse_value fuel' r2 in
      let acc' := obj_set k v acc in
      match expect 44 r3 with
      | Some r4 => parse_members fuel' r4 acc'
      | None => let? r4 := expect 125 r3 in Some (acc', r4)
      end
  end.

(** [JSON.parse(text)]: one value and nothing but white space after it;
    [None] is the [SyntaxError].  Twice the length of the text is more
    fuel than any text needs. *)
Definition JSON_parse (text : jsstring) : option json :=
  let? (v, r) := parse_value (2 * length text) text in
  match skip_ws r with
  | [] => Some v
  | _ :: _ => None
  end.

(** *** Two notions for the proofs *)

(** What reading one more character of a literal adds to the rest. *)
Definition push (c : code_unit) (p : option (jsstring * jsstring))
  : option (jsstring * jsstring) :=
  let? (cs, r) := p in Some (c :: cs, r).

(** The value of digits given least significant first. *)
Definition value_le (ds : list N) : N :=
  fold_right (fun d acc => d + 10 * acc) 0 ds.

(** ** The two effects *)

(** What [localStorage.getItem('expenses')] does: throws, or returns
    [null] or a string. *)
Inductive ReadResult :=
| ReadThrows
| ReadValue (v : option jsstring).

(** The load effect: the value [expenses] holds once it has run, [current]
    being the value it held before. *)
Definition loadEffect (r : ReadResult) (current : json) : json :=
  match r with
  | ReadThrows => current
  | ReadValue None => current
  | ReadValue (Some savedExpenses) =>
      if truthy savedExpenses then
        match JSON_parse savedExpenses with
        | Some v => v
        | None => current
        end
      else current
  end.

(** The save effect: the string under the key ['expenses'] once it has
    run; [writable] is false when [setItem] throws. *)
Definition saveEffect (writable : bool) (l : list Expense.t)
    (stored : option jsstring) : option jsstring :=
  if writable then Some (JSON_stringify l) else stored.

Close Scope N_scope.

(** The draft of the form has its three fields filled in. *)
Definition filled (d : FormData.t) : Prop :=
  FormData.amount d <> [] /\ FormData.date d <> [] /\ FormData.note d <> [].

(** A draft and a state used in the examples below. *)
Definition lunch : FormData.t :=
  FormData.mk (str "12.50") (str "2024-01-01") (str "Lunch").

Definition lunchSaved : AppState :=
  mkApp [Expense.mk 1704067200000 (str "12.50") (str "2024-01-01") (str "Lunch")]
        INITIAL_FORM_STATE None.

(** ** Notions for the properties of sessions and of the storage *)

(** What an input shows: [value={formData.amount}] and the like. *)
Definition getField (name : FieldName) (d : FormData.t) : jsstring :=
  match name with
  | Amount => FormData.amount d
  | Date => FormData.date d
  | Note => FormData.note d
  end.

Definition FieldName_eqb (a b : FieldName) : bool :=
  match a, b with
  | Amount, Amount | Date, Date | Note, Note => true
  | _, _ => false
  end.

(** Key strokes: which input changed and the value it then had. *)
Definition typed (keys : list (FieldName * jsstring)) : list Event :=
  map (fun k => InputChange (fst k) (snd k)) keys.

(** The value an input had at its last change, if it changed at all. *)
Fixpoint lastTyped (name : FieldName) (keys : list (FieldName * jsstring))
  : option jsstring :=
  match keys with
  | [] => None
  | k :: keys' =>
      match lastTyped name keys' with
      | Some v => Some v
      | None => if FieldName_eqb (fst k) name then Some (snd k) else None
      end
  end.

(** Events after which [setExpenses] is not called: all but a submission
    and a confirmed deletion. *)
Definition readOnly (ev : Event) : bool :=
  match ev with
  | FormSubmit _ => false
  | DeleteClick _ confirmed => negb confirmed
  | _ => true
  end.

(** An expense whose amount, date and note are not empty. *)
Definition filledExpense (x : Expense.t) : Prop :=
  Expense.amount x <> [] /\ Expense.date x <> [] /\ Expense.note x <> [].

(** The save effect run once for each collection of a list, in order;
    the boolean tells whether [setItem] went through. *)
Definition saveAll (attempts : list (bool * list Expense.t))
    (stored : option jsstring) : option jsstring :=
  fold_left (fun s a => saveEffect (fst a) (snd a) s) attempts stored.

(** The collection of the last attempt that went through. *)
Fixpoint lastWritten (attempts : list (bool * list Expense.t))
  : option (list Expense.t) :=
  match attempts with
  | [] => None
  | a :: attempts' =>
      match lastWritten attempts' with
      | Some l => Some l
      | None => if fst a then Some (snd a) else None
      end
  end.

(** * Properties of the handlers *)

Section Handlers.

Local Open Scope Z_scope.

Lemma truthy_iff (s : jsstring) : truthy s = true <-> s <> [].
Proof.
  destruct s; simpl; split; intro H; try reflexivity; try discriminate.
  now contradiction H.
Qed.

Lemma missingField_false (d : FormData.t) :
  filled d -> missingField d = false.
Proof.
  intros (Ha & Hd & Hn). unfold missingField.
  apply truthy_iff in Ha, Hd, Hn. now rewrite Ha, Hd, Hn.
Qed.

Lemma missingField_true (d : FormData.t) :
  FormData.amount d = [] \/ FormData.date d = [] \/ FormData.note d = [] ->
  missingField d = true.
Proof.
  unfold missingField. intros [H | [H | H]]; rewrite H; simpl.
  - reflexivity.
  - now rewrite orb_true_r.
  - now rewrite orb_true_r.
Qed.

(** [filter] keeps a list whose elements all pass. *)
Lemma filter_all {A} (p : A -> bool) (l : list A) :
  (forall x, In x l -> p x = true) -> filter p l = l.
Proof.
  induction l as [| a l IH]; simpl; intros H; [reflexivity |].
  rewrite (H a (or_introl eq_refl)). f_equal. apply IH.
  intros x Hx. apply H. now right.
Qed.

(** [map] with a function that is the identity on the list keeps it. *)
Lemma map_fixed {A} (f : A -> A) (l : list A) :
  (forall x, In x l -> f x = x) -> map f l = l.
Proof.
  induction l as [| a l IH]; simpl; intros H; [reflexivity |].
  rewrite (H a (or_introl eq_refl)). f_equal. apply IH.
  intros x Hx. apply H. now right.
Qed.

Lemma ids_filter_incl (p : Expense.t -> bool) (l : list Expense.t) :
  incl (ids (filter p l)) (ids l).
Proof.
  intros z Hz. unfold ids in *. apply in_map_iff in Hz as (x & <- & Hx).
  apply filter_In in Hx as [Hx _]. now apply in_map.
Qed.

Lemma NoDup_ids_filter (p : Expense.t -> bool) (l : list Expense.t) :
  NoDup (ids l) -> NoDup (ids (filter p l)).
Proof.
  induction l as [| a l IH]; simpl; intros H; [constructor |].
  inversion H as [| ? ? Hnotin Hnd]; subst.
  destruct (p a); simpl; [| now apply IH].
  constructor; [| now apply IH].
  intros Hin. apply Hnotin. now apply (ids_filter_incl p l).
Qed.

(** The update of edit mode leaves the sequence of ids as it is. *)
Lemma ids_update (eid : Z) (d : FormData.t) (l : list Expense.t) :
  ids (map (fun expense =>
              if Expense.id expense =? eid then spreadForm expense d
              else expense) l) = ids l.
Proof.
  unfold ids. rewrite map_map. apply map_ext. intros x.
  now destruct (Expense.id x =? eid).
Qed.

(** The scenario of a first expense: typed in and submitted, then edited,
    then deleted. *)
Example scenario_add :
  run (fillForm lunch ++ [FormSubmit 1704067200000]) initialState = lunchSaved.
Proof. reflexivity. Qed.

Example scenario_edit :
  run [EditClick (Expense.mk 1704067200000 (str "12.50") (str "2024-01-01")
                             (str "Lunch"));
       InputChange Amount (str "15.00");
       FormSubmit 1704067260000] lunchSaved =
  mkApp [Expense.mk 1704067200000 (str "15.00") (str "2024-01-01")
                    (str "Lunch")]
        INITIAL_FORM_STATE None.
Proof. reflexivity. Qed.

Example scenario_delete :
  run [DeleteClick 1704067200000 true] lunchSaved = initialState.
Proof. reflexivity. Qed.

Example scenario_delete_declined :
  run [DeleteClick 1704067200000 false] lunchSaved = lunchSaved.
Proof. reflexivity. Qed.

(** C2: in add mode, a submission with the three fields filled in puts one
    record in front of the collection: the size grows by one, the first
    record carries the id read from the clock and the amount, date and note
    of the draft, and the records after it are the former collection. *)
Theorem submit_add_prepends (now : Z) (st : AppState) :
  editingId st = None ->
  filled (formData st) ->
  let st' := snd (handleFormSubmit now st) in
  fst (handleFormSubmit now st) = Submitted /\
  length (expenses st') = S (length (expenses st)) /\
  hd_error (expenses st') =
    Some (Expense.mk now (FormData.amount (formData st))
                     (FormData.date (formData st))
                     (FormData.note (formData st))) /\
  tl (expenses st') = expenses st.
Proof.
  intros Hadd Hfilled. unfold handleFormSubmit.
  rewrite (missingField_false _ Hfilled), Hadd. simpl.
  repeat split; reflexivity.
Qed.

Lemma submit_add_prepends_witness :
  let st := mkApp (expenses lunchSaved) lunch None in
  let st' := snd (handleFormSubmit 1704067260000 st) in
  fst (handleFormSubmit 1704067260000 st) = Submitted /\
  length (expenses st') = S (length (expenses st)) /\
  hd_error (expenses st') =
    Some (Expense.mk 1704067260000 (FormData.amount (formData st))
                     (FormData.date (formData st))
                     (FormData.note (formData st))) /\
  tl (expenses st') = expenses st.
Proof.
  apply (submit_add_prepends 1704067260000
           (mkApp (expenses lunchSaved) lunch None)).
  - reflexivity.
  - repeat split; discriminate.
Defined.

(** C3: in edit mode, a submission with the three fields filled in keeps
    the size of the collection; the record with the edited id stays where it
    is, keeps its id and takes the amount, date and note of the draft; every
    record with another id is unchanged, and so is, in a collection whose
    ids are unique, every record at another position. *)
Theorem submit_edit_in_place (now eid : Z) (st : AppState) :
  editingId st = Some eid ->
  In eid (ids (expenses st)) ->
  filled (formData st) ->
  let d := formData st in
  let st' := snd (handleFormSubmit now st) in
  fst (handleFormSubmit now st) = Submitted /\
  length (expenses st') = length (expenses st) /\
  (exists i r, nth_error (expenses st) i = Some r /\ Expense.id r = eid) /\
  (forall i r,
      nth_error (expenses st) i = Some r -> Expense.id r = eid ->
      nth_error (expenses st') i =
        Some (Expense.mk eid (FormData.amount d) (FormData.date d)
                         (FormData.note d))) /\
  (forall i r,
      nth_error (expenses st) i = Some r -> Expense.id r <> eid ->
      nth_error (expenses st') i = Some r) /\
  (NoDup (ids (expenses st)) ->
   forall i j r,
      nth_error (expenses st) i = Some r -> Expense.id r = eid -> j <> i ->
      nth_error (expenses st') j = nth_error (expenses st) j).
Proof.
  intros Hedit Hin Hfilled d st'. subst d st'. unfold handleFormSubmit.
  rewrite (missingField_false _ Hfilled), Hedit. cbn [fst snd resetForm expenses].
  set (f := fun expense : Expense.t =>
              if Expense.id expense =? eid
              then spreadForm expense (formData st) else expense).
  assert (Hhit : forall i r,
             nth_error (expenses st) i = Some r -> Expense.id r = eid ->
             nth_error (map f (expenses st)) i =
               Some (Expense.mk eid (FormData.amount (formData st))
                       (FormData.date (formData st))
                       (FormData.note (formData st)))).
  { intros i r Hi Hr. rewrite nth_error_map, Hi. simpl. unfold f.
    rewrite <- Hr, Z.eqb_refl. reflexivity. }
  assert (Hmiss : forall i r,
             nth_error (expenses st) i = Some r -> Expense.id r <> eid ->
             nth_error (map f (expenses st)) i = Some r).
  { intros i r Hi Hr. rewrite nth_error_map, Hi. simpl. unfold f.
    apply Z.eqb_neq in Hr. now rewrite Hr. }
  split; [reflexivity |]. split; [apply length_map |].
  split.
  { unfold ids in Hin. apply in_map_iff in Hin as (r & Hr & Hinr).
    apply In_nth_error in Hinr as (i & Hi). now exists i, r. }
  split; [exact Hhit |]. split; [exact Hmiss |].
  intros Hnd i j r Hi Hr Hji.
  destruct (nth_error (expenses st) j) as [r' |] eqn:Hj.
  - apply Hmiss with (1 := Hj). intros Hr'. apply Hji.
    assert (Hlen : (j < length (ids (expenses st)))%nat).
    { unfold ids. rewrite length_map. apply nth_error_Some. now rewrite Hj. }
    apply (proj1 (NoDup_nth_error (ids (expenses st))) Hnd j i Hlen).
    unfold ids. rewrite !nth_error_map, Hi, Hj. simpl. congruence.
  - rewrite nth_error_map, Hj. reflexivity.
Qed.

Lemma submit_edit_in_place_witness :
  let st := mkApp (expenses lunchSaved)
                  (FormData.mk (str "15.00") (str "2024-01-01") (str "Lunch"))
                  (Some 1704067200000) in
  nth_error (expenses (snd (handleFormSubmit 1704067260000 st))) 0 =
    Some (Expense.mk 1704067200000 (str "15.00") (str "2024-01-01")
                     (str "Lunch")).
Proof.
  intros st.
  refine (proj1 (proj2 (proj2 (proj2
            (submit_edit_in_place 1704067260000 1704067200000 st
               eq_refl _ _)))) 0%nat _ eq_refl eq_refl).
  - simpl. left. reflexivity.
  - repeat split; discriminate.
Defined.

(** C4: a submission with an empty amount, date or note shows the alert
    and changes nothing: the collection, the edit session and the draft are
    what they were. *)
Theorem submit_missing_field (now : Z) (st : AppState) :
  FormData.amount (formData st) = [] \/
  FormData.date (formData st) = [] \/
  FormData.note (formData st) = [] ->
  handleFormSubmit now st = (Alert "Please fill out all fields.", st).
Proof.
  intros H. unfold handleFormSubmit.
  now rewrite (missingField_true _ H).
Qed.

Lemma submit_missing_field_witness :
  let st := mkApp (expenses lunchSaved)
                  (FormData.mk (str "15.00") [] (str "Lunch"))
                  (Some 1704067200000) in
  handleFormSubmit 1704067260000 st = (Alert "Please fill out all fields.", st).
Proof.
  intros st. apply (submit_missing_field 1704067260000 st).
  right. left. reflexivity.
Defined.

(** C5 fails as stated: deleting the record that is being edited empties
    this collection and leaves the edit session on the deleted id. *)
Lemma delete_edited_keeps_session :
  let st := mkApp (expenses lunchSaved) lunch (Some 1704067200000) in
  editingId st = Some 1704067200000 /\
  expenses (handleDeleteClick 1704067200000 true st) = [] /\
  editingId (handleDeleteClick 1704067200000 true st) <> None.
Proof.
  simpl. repeat split. discriminate.
Qed.

(** C5, amended: a deletion never touches the edit session or the draft,
    so a session on the deleted id stays on it; once confirmed, it leaves
    the ids of the collection without the deleted one. *)
Theorem delete_leaves_session (id : Z) (confirmed : bool) (st : AppState) :
  editingId (handleDeleteClick id confirmed st) = editingId st /\
  formData (handleDeleteClick id confirmed st) = formData st /\
  ids (expenses (handleDeleteClick id true st)) =
    filter (fun z => negb (z =? id)) (ids (expenses st)).
Proof.
  unfold handleDeleteClick. split; [| split].
  - now destruct confirmed.
  - now destruct confirmed.
  - simpl. induction (expenses st) as [| x l IH]; simpl; [reflexivity |].
    destruct (Expense.id x =? id); simpl; now rewrite IH.
Qed.

Lemma delete_leaves_session_witness :
  editingId (handleDeleteClick 1704067200000 true
               (mkApp (expenses lunchSaved) lunch (Some 1704067200000))) =
  Some 1704067200000.
Proof.
  exact (proj1 (delete_leaves_session 1704067200000 true
                  (mkApp (expenses lunchSaved) lunch (Some 1704067200000)))).
Defined.

(** C6: deleting an id that no record has leaves the state as it is,
    whatever the user answers to the confirmation. *)
Theorem delete_absent_id (id : Z) (confirmed : bool) (st : AppState) :
  ~ In id (ids (expenses st)) ->
  handleDeleteClick id confirmed st = st.
Proof.
  intros Hnotin. unfold handleDeleteClick. destruct confirmed; [| reflexivity].
  rewrite filter_all; [now destruct st |].
  intros x Hx. apply negb_true_iff, Z.eqb_neq. intros Heq.
  apply Hnotin. subst id. unfold ids. now apply in_map.
Qed.

Lemma delete_absent_id_witness :
  handleDeleteClick 7 true lunchSaved = lunchSaved.
Proof.
  apply (delete_absent_id 7 true lunchSaved).
  simpl. intros [H | []]. discriminate H.
Defined.

(** C9: after a submission with the three fields filled in, in add mode or
    in edit mode, there is no edit session and the draft is the empty one,
    which is what [resetForm], the handler of Cancel, leaves. *)
Theorem submit_resets_form (now : Z) (st : AppState) :
  filled (formData st) ->
  let st' := snd (handleFormSubmit now st) in
  fst (handleFormSubmit now st) = Submitted /\
  editingId st' = None /\
  formData st' = INITIAL_FORM_STATE /\
  editingId st' = editingId (resetForm st) /\
  formData st' = formData (resetForm st) /\
  resetForm st' = st'.
Proof.
  intros Hfilled. unfold handleFormSubmit.
  rewrite (missingField_false _ Hfilled). simpl.
  repeat split; reflexivity.
Qed.

Lemma submit_resets_form_witness :
  let st := mkApp (expenses lunchSaved) lunch (Some 1704067200000) in
  let st' := snd (handleFormSubmit 1704067260000 st) in
  fst (handleFormSubmit 1704067260000 st) = Submitted /\
  editingId st' = None /\
  formData st' = INITIAL_FORM_STATE /\
  editingId st' = editingId (resetForm st) /\
  formData st' = formData (resetForm st) /\
  resetForm st' = st'.
Proof.
  apply (submit_resets_form 1704067260000
           (mkApp (expenses lunchSaved) lunch (Some 1704067200000))).
  repeat split; discriminate.
Defined.

(** C10: a submission with the three fields filled in, in an edit session
    on an id that no record has, shows no alert, leaves the collection as it
    is, and ends the session with an empty draft. *)
Theorem submit_edit_absent_id (now eid : Z) (st : AppState) :
  editingId st = Some eid ->
  ~ In eid (ids (expenses st)) ->
  filled (formData st) ->
  handleFormSubmit now st =
    (Submitted, mkApp (expenses st) INITIAL_FORM_STATE None).
Proof.
  intros Hedit Hnotin Hfilled. unfold handleFormSubmit.
  rewrite (missingField_false _ Hfilled), Hedit. unfold resetForm. simpl.
  rewrite map_fixed; [reflexivity |].
  intros x Hx. destruct (Expense.id x =? eid) eqn:E; [| reflexivity].
  apply Z.eqb_eq in E. exfalso. apply Hnotin. subst eid.
  unfold ids. now apply in_map.
Qed.

Lemma submit_edit_absent_id_witness :
  handleFormSubmit 1704067260000 (mkApp [] lunch (Some 1704067200000)) =
    (Submitted, mkApp [] INITIAL_FORM_STATE None).
Proof.
  apply (submit_edit_absent_id 1704067260000 1704067200000
           (mkApp [] lunch (Some 1704067200000))).
  - reflexivity.
  - simpl. intros [].
  - repeat split; discriminate.
Defined.

(** ** Sessions *)

(** One event adds at most the id it read from the clock. *)
Lemma step_ids_incl (st : AppState) (ev : Event) :
  incl (ids (expenses (step st ev))) (timestamps [ev] ++ ids (expenses st)).
Proof.
  destruct ev as [name value | now | expense | id confirmed |]; simpl;
    try apply incl_refl.
  - unfold handleFormSubmit. destruct (missingField (formData st)); simpl.
    + now apply incl_tl, incl_refl.
    + destruct (editingId st) as [eid |]; simpl.
      * rewrite ids_update. now apply incl_tl, incl_refl.
      * apply incl_refl.
  - unfold handleDeleteClick. destruct confirmed; simpl.
    + apply ids_filter_incl.
    + apply incl_refl.
Qed.

(** One event keeps the ids distinct when the clock reading it uses is not
    among them. *)
Lemma step_NoDup (st : AppState) (ev : Event) :
  NoDup (ids (expenses st)) ->
  (forall z, In z (timestamps [ev]) -> ~ In z (ids (expenses st))) ->
  NoDup (ids (expenses (step st ev))).
Proof.
  intros Hnd Hfresh.
  destruct ev as [name value | now | expense | id confirmed |]; simpl;
    try assumption.
  - unfold handleFormSubmit. destruct (missingField (formData st)); simpl;
      [assumption |].
    destruct (editingId st) as [eid |]; simpl.
    + now rewrite ids_update.
    + constructor; [| assumption]. apply Hfresh. now left.
  - unfold handleDeleteClick. destruct confirmed; simpl; [| assumption].
    now apply NoDup_ids_filter.
Qed.

Lemma timestamps_cons (ev : Event) (evs : list Event) :
  timestamps (ev :: evs) = timestamps [ev] ++ timestamps evs.
Proof. now destruct ev. Qed.

(** The invariant of a session, from any state on. *)
Lemma run_NoDup (evs : list Event) :
  forall st,
    NoDup (ids (expenses st)) ->
    NoDup (timestamps evs) ->
    (forall z, In z (timestamps evs) -> ~ In z (ids (expenses st))) ->
    NoDup (ids (expenses (run evs st))).
Proof.
  induction evs as [| ev evs IH]; intros st Hnd Hts Hfresh; [exact Hnd |].
  rewrite timestamps_cons in Hts, Hfresh.
  change (run (ev :: evs) st) with (run evs (step st ev)).
  apply IH.
  - apply step_NoDup; [assumption |].
    intros z Hz. apply Hfresh, in_or_app. now left.
  - now apply NoDup_app_remove_l in Hts.
  - intros z Hz Hin. apply step_ids_incl, in_app_or in Hin as [Hin | Hin].
    + destruct ev; simpl in Hin; try contradiction.
      destruct Hin as [-> | []]. simpl in Hts.
      inversion Hts; subst. contradiction.
    + apply (Hfresh z); [apply in_or_app; now right | assumption].
Qed.

(** C1 fails as stated: two submissions that read the same value from the
    clock leave two records with one id. *)
Lemma same_millisecond_shares_id :
  let evs := fillForm lunch ++ [FormSubmit 1704067200000]
             ++ fillForm lunch ++ [FormSubmit 1704067200000] in
  ids (expenses (run evs initialState)) = [1704067200000; 1704067200000] /\
  ~ NoDup (ids (expenses (run evs initialState))).
Proof.
  simpl. split; [reflexivity |].
  intros H. inversion H as [| ? ? Hnotin _]; subst. apply Hnotin. now left.
Qed.

(** C1, amended: in every session that starts from the empty collection and
    whose submissions read pairwise distinct values from the clock, whatever
    else the user types, edits, cancels or deletes, no two records of the
    collection share an id. *)
Theorem session_ids_unique (evs : list Event) :
  NoDup (timestamps evs) ->
  NoDup (ids (expenses (run evs initialState))).
Proof.
  intros Hts. apply run_NoDup; [constructor | assumption |].
  intros z _ [].
Qed.

Lemma session_ids_unique_witness :
  NoDup (ids (expenses (run
    (fillForm lunch ++ [FormSubmit 1704067200000]
     ++ fillForm lunch ++ [FormSubmit 1704067200001]
     ++ [DeleteClick 1704067200000 true]) initialState))).
Proof.
  apply (session_ids_unique
    (fillForm lunch ++ [FormSubmit 1704067200000]
     ++ fillForm lunch ++ [FormSubmit 1704067200001]
     ++ [DeleteClick 1704067200000 true])).
  simpl. constructor.
  - simpl. intros [H | []]. discriminate H.
  - constructor; [intros [] | constructor].
Defined.

End Handlers.

(** * Properties of the stored text *)

Section Persistence.

Local Open Scope N_scope.

(** Deciding what the next token is, on text whose head is known. *)
Ltac next_token := cbn [skip_ws is_ws N.eqb Pos.eqb orb].

(** ** Examples *)

Example stringify_lunch :
  JSON_stringify (expenses lunchSaved) =
  qstr "[{'id':1704067200000,'amount':'12.50','date':'2024-01-01','note':'Lunch'}]".
Proof. reflexivity. Qed.

Example stringify_escapes :
  JSON_stringify [Expense.mk (-5) [9; 34; 92; 7] [55357; 56832] [56832; 233]] =
  qstr "[{'id':-5,'amount':'\t\'\\\u0007','date':'"
    ++ [55357; 56832] ++ qstr "','note':'\ude00" ++ [233] ++ qstr "'}]".
Proof. reflexivity. Qed.

Example stringify_empty : JSON_stringify [] = str "[]".
Proof. reflexivity. Qed.

Example parse_spaced :
  JSON_parse (qstr " [ 1.5e3 , -0.25, true, null, {}, {'a': [ ], 'b': 'x\u0041\/', 'a': 2} ] ") =
  Some (JArr [JNum 15 2; JNum (-25) (-2); JBool true; JNull; JObj [];
              JObj [(str "a", JNum 2 0); (str "b", JStr (str "xA/"))]]).
Proof. reflexivity. Qed.

Example parse_rejects :
  map JSON_parse
      [[]; str "[1,]"; str "01"; str "1."; str "-"; str "nul";
       qstr "{'id':1"; qstr "'a"; str "[1] 2"; qstr "{'a' 1}"] =
  repeat None 10.
Proof. reflexivity. Qed.

(** ** String literals *)

Lemma hex_value_hex_digit (v : N) :
  v < 16 -> hex_value (hex_digit v) = Some v.
Proof.
  intros Hv. unfold hex_digit, hex_value.
  destruct (N.ltb_spec v 10) as [Hlt | Hge].
  - replace ((48 <=? 48 + v) && (48 + v <=? 57)) with true.
    + f_equal. lia.
    + symmetry. apply andb_true_iff. split; apply N.leb_le; lia.
  - replace ((48 <=? 87 + v) && (87 + v <=? 57)) with false.
    + replace ((97 <=? 87 + v) && (87 + v <=? 102)) with true.
      * f_equal. lia.
      * symmetry. apply andb_true_iff. split; apply N.leb_le; lia.
    + symmetry. apply andb_false_iff. right. apply N.leb_gt. lia.
Qed.

Lemma hex4_unicode_escape (c : code_unit) :
  c < 65536 ->
  hex4 (hex_digit (c / 4096)) (hex_digit ((c / 256) mod 16))
       (hex_digit ((c / 16) mod 16)) (hex_digit (c mod 16)) = Some c.
Proof.
  intros Hc. unfold hex4.
  assert (H3 : c / 4096 < 16) by (apply N.Div0.div_lt_upper_bound; lia).
  assert (H2 : (c / 256) mod 16 < 16) by (apply N.mod_lt; lia).
  assert (H1 : (c / 16) mod 16 < 16) by (apply N.mod_lt; lia).
  assert (H0 : c mod 16 < 16) by (apply N.mod_lt; lia).
  rewrite !hex_value_hex_digit by assumption. f_equal.
  pose proof (N.div_mod c 16 ltac:(lia)) as E0.
  pose proof (N.div_mod (c / 16) 16 ltac:(lia)) as E1.
  pose proof (N.div_mod (c / 256) 16 ltac:(lia)) as E2.
  replace (c / 16 / 16) with (c / 256) in E1
    by (now rewrite N.Div0.div_div).
  replace (c / 256 / 16) with (c / 4096) in E2
    by (now rewrite N.Div0.div_div).
  lia.
Qed.

Lemma parse_chars_escape (c : code_unit) (rest : jsstring) :
  c < 65536 ->
  parse_chars (unicode_escape c ++ rest) = push c (parse_chars rest).
Proof.
  intros Hc. unfold unicode_escape. simpl.
  now rewrite hex4_unicode_escape.
Qed.

Lemma parse_chars_literal (c : code_unit) (rest : jsstring) :
  32 <= c -> c <> 34 -> c <> 92 ->
  parse_chars (c :: rest) = push c (parse_chars rest).
Proof.
  intros Hlo Hq Hb. simpl.
  apply N.eqb_neq in Hq, Hb. rewrite Hq, Hb.
  replace (c <? 32) with false by (symmetry; apply N.ltb_ge; exact Hlo).
  reflexivity.
Qed.

Lemma parse_chars_quote_unit (c : code_unit) (rest : jsstring) :
  parse_chars (quote_unit c ++ rest) = push c (parse_chars rest).
Proof.
  unfold quote_unit.
  repeat match goal with
         | |- context [if ?x =? ?k then _ else _] =>
             destruct (N.eqb_spec x k) as [-> | ?]; [reflexivity |]
         end.
  destruct (N.ltb_spec c 32) as [Hlt | Hge].
  - apply parse_chars_escape. lia.
  - now apply parse_chars_literal.
Qed.

Lemma surrogate_literal (c : code_unit) (rest : jsstring) :
  is_high c = true \/ is_low c = true ->
  parse_chars (c :: rest) = push c (parse_chars rest) /\ c < 65536.
Proof.
  unfold is_high, is_low.
  intros [H | H]; apply andb_true_iff in H as [Hlo Hhi];
    apply N.leb_le in Hlo, Hhi;
    (split; [apply parse_chars_literal |]); lia.
Qed.

(** Reading back what [quote_units] printed, up to the closing quote. *)
Lemma parse_chars_quote_units_len (n : nat) :
  forall s rest,
    (length s <= n)%nat ->
    parse_chars (quote_units s ++ 34 :: rest) = Some (s, rest).
Proof.
  induction n as [| n IH]; intros s rest Hlen.
  - destruct s; [reflexivity | simpl in Hlen; lia].
  - destruct s as [| c s]; [reflexivity |]. simpl in Hlen.
    cbn [quote_units].
    destruct (is_high c) eqn:Hh.
    + destruct (surrogate_literal c (quote_units s ++ 34 :: rest)
                  (or_introl Hh)) as [Hlit Hc].
      destruct s as [| d s'].
      * rewrite parse_chars_escape by exact Hc. reflexivity.
      * destruct (is_low d) eqn:Hl.
        -- cbn [app].
           destruct (surrogate_literal c (d :: quote_units s' ++ 34 :: rest)
                       (or_introl Hh)) as [-> _].
           destruct (surrogate_literal d (quote_units s' ++ 34 :: rest)
                       (or_intror Hl)) as [-> _].
           rewrite IH by (simpl in Hlen; lia). reflexivity.
        -- rewrite <- app_assoc, parse_chars_escape by exact Hc.
           rewrite IH by lia. reflexivity.
    + destruct (is_low c) eqn:Hl.
      * destruct (surrogate_literal c rest (or_intror Hl)) as [_ Hc].
        rewrite <- app_assoc, parse_chars_escape by exact Hc.
        rewrite IH by lia. reflexivity.
      * rewrite <- app_assoc, parse_chars_quote_unit.
        rewrite IH by lia. reflexivity.
Qed.

Lemma parse_chars_quote_units (s rest : jsstring) :
  parse_chars (quote_units s ++ 34 :: rest) = Some (s, rest).
Proof. now apply (parse_chars_quote_units_len (length s)). Qed.

(** ** Numbers *)

Lemma digits_value_rev (ds : list N) : digits_value (rev ds) = value_le ds.
Proof.
  unfold digits_value, value_le. rewrite <- fold_left_rev_right.
  rewrite rev_involutive.
  induction ds as [| d ds IH]; cbn [fold_right]; [reflexivity |].
  rewrite IH. apply N.add_comm.
Qed.

(** With enough fuel, [digits_le] gives decimal digits of the right value,
    at least one of them, and the most significant one is not zero unless
    the number is zero. *)
Lemma digits_le_spec (fuel : nat) :
  forall n,
    n < 2 ^ N.of_nat fuel ->
    let ds := digits_le (S fuel) n in
    value_le ds = n /\ Forall (fun d => d < 10) ds /\
    ds <> [] /\ (n <> 0 -> last ds 0 <> 0).
Proof.
  induction fuel as [| fuel IH]; intros n Hn.
  - change (2 ^ N.of_nat 0) with 1 in Hn.
    assert (n = 0) by lia. subst n. cbv zeta.
    change (digits_le 1 0) with [0].
    split; [reflexivity |]. split; [constructor; [lia | constructor] |].
    split; [discriminate | intros H; now contradiction H].
  - change (digits_le (S (S fuel)) n)
      with (n mod 10 ::
            (if n / 10 =? 0 then [] else digits_le (S fuel) (n / 10))).
    assert (Hmod : n mod 10 < 10) by (apply N.mod_lt; lia).
    pose proof (N.div_mod n 10 ltac:(lia)) as Hdm.
    destruct (N.eqb_spec (n / 10) 0) as [Hz | Hnz].
    + cbv zeta. cbn [value_le fold_right last].
      split; [lia |]. split; [constructor; [lia | constructor] |].
      split; [discriminate | lia].
    + assert (Hlt : n / 10 < 2 ^ N.of_nat fuel).
      { apply N.Div0.div_lt_upper_bound.
        rewrite Nat2N.inj_succ, N.pow_succ_r' in Hn. lia. }
      specialize (IH (n / 10) Hlt). cbv zeta in IH.
      destruct IH as (Hval & Hall & Hne & Hlast).
      remember (digits_le (S fuel) (n / 10)) as ds eqn:Eds. clear Eds.
      cbv zeta. split; [| split; [| split]].
      * cbn [value_le fold_right]. fold (value_le ds). lia.
      * constructor; assumption.
      * discriminate.
      * intros _. destruct ds as [| d ds']; [contradiction |].
        cbn [last]. fold (last (d :: ds') 0). now apply Hlast.
Qed.

Lemma is_digit_char (d : N) : d < 10 -> is_digit (48 + d) = true.
Proof.
  intros Hd. unfold is_digit. apply andb_true_iff.
  split; apply N.leb_le; lia.
Qed.

(** The character after a number in the text of a collection is a comma,
    which no part of a number can start with. *)
Lemma span_digits_chars (ds : list N) (rest : jsstring) :
  Forall (fun d => d < 10) ds ->
  span_digits (map (fun d => 48 + d) ds ++ 44 :: rest) = (ds, 44 :: rest).
Proof.
  induction 1 as [| d ds Hd _ IH]; [reflexivity |].
  cbn [map app span_digits]. rewrite is_digit_char by exact Hd.
  rewrite IH. f_equal. f_equal. lia.
Qed.

Lemma parse_int_part_digits (n : N) (rest : jsstring) :
  parse_int_part (digits n ++ 44 :: rest) = Some (n, 44 :: rest).
Proof.
  unfold digits.
  destruct (digits_le_spec (N.to_nat (N.size n)) n)
    as (Hval & Hall & Hne & Hlast).
  { rewrite N2Nat.id. apply N.size_gt. }
  remember (digits_le (S (N.to_nat (N.size n))) n) as ds eqn:Eds.
  assert (Hrev : Forall (fun d => d < 10) (rev ds)) by now apply Forall_rev.
  assert (Hv : digits_value (rev ds) = n) by now rewrite digits_value_rev.
  destruct (rev ds) as [| d ds'] eqn:Erev.
  { apply (f_equal (@rev N)) in Erev. rewrite rev_involutive in Erev.
    contradiction. }
  assert (Hd : d < 10) by now inversion Hrev.
  assert (Hlead : d = last ds 0).
  { rewrite <- (rev_involutive ds), Erev. simpl. now rewrite last_last. }
  pose proof (span_digits_chars (d :: ds') rest Hrev) as Hspan.
  cbn [map app] in *. unfold parse_int_part.
  destruct (N.eqb_spec (48 + d) 48) as [Hzero | Hnonzero].
  - assert (Hn0 : n = 0).
    { destruct (N.eq_dec n 0) as [| Hn]; [assumption |].
      exfalso. apply (Hlast Hn). lia. }
    rewrite Hn0 in Eds |- *. vm_compute in Eds. rewrite Eds in Erev.
    injection Erev as <- <-. reflexivity.
  - rewrite is_digit_char by exact Hd.
    rewrite Hspan, Hv. reflexivity.
Qed.

Lemma digits_head (n : N) :
  exists d tl, digits n = 48 + d :: tl /\ d < 10.
Proof.
  unfold digits.
  destruct (digits_le_spec (N.to_nat (N.size n)) n) as (_ & Hall & Hne & _).
  { rewrite N2Nat.id. apply N.size_gt. }
  remember (digits_le (S (N.to_nat (N.size n))) n) as ds eqn:Eds. clear Eds.
  apply Forall_rev in Hall.
  destruct (rev ds) as [| d ds'] eqn:Erev.
  - apply (f_equal (@rev N)) in Erev. rewrite rev_involutive in Erev.
    contradiction.
  - exists d, (map (fun d => 48 + d) ds'). split; [reflexivity |].
    now inversion Hall.
Qed.

Lemma parse_number_digits (neg : bool) (n : N) (rest : jsstring) :
  parse_number ((if neg then [45] else []) ++ digits n ++ 44 :: rest) =
  Some (JNum (if neg then (- Z.of_N n)%Z else Z.of_N n) 0, 44 :: rest).
Proof.
  destruct (digits_head n) as (d & tl & Hdig & Hd).
  assert (Hint : parse_number (digits n ++ 44 :: rest) =
                 Some (JNum (Z.of_N n) 0, 44 :: rest)).
  { pose proof (parse_int_part_digits n rest) as Hp.
    unfold parse_number. rewrite Hdig in *. cbn [app] in *.
    replace (48 + d =? 45) with false by (symmetry; apply N.eqb_neq; lia).
    rewrite Hp. cbn. f_equal. f_equal. f_equal. lia. }
  destruct neg; cbn [app]; [| exact Hint].
  pose proof (parse_int_part_digits n rest) as Hp.
  unfold parse_number. cbn [N.eqb Pos.eqb].
  rewrite Hp. cbn. f_equal. f_equal. f_equal. lia.
Qed.

Lemma parse_number_to_string (z : Z) (rest : jsstring) :
  parse_number (number_to_string z ++ 44 :: rest) =
  Some (JNum z 0, 44 :: rest).
Proof.
  destruct z as [| p | p]; unfold number_to_string.
  - apply (parse_number_digits false 0 rest).
  - apply (parse_number_digits false (Npos p) rest).
  - apply (parse_number_digits true (Npos p) rest).
Qed.

(** ** Values *)

Lemma parse_value_S (f : nat) (s : jsstring) :
  parse_value (S f) s =
  match skip_ws s with
  | [] => None
  | c :: rest =>
      if c =? 34 then
        let? (x, r) := parse_chars rest in Some (JStr x, r)
      else if c =? 91 then
        match expect 93 rest with
        | Some r => Some (JArr [], r)
        | None => let? (vs, r) := parse_elements f rest in Some (JArr vs, r)
        end
      else if c =? 123 then
        match expect 125 rest with
        | Some r => Some (JObj [], r)
        | None => let? (o, r) := parse_members f rest [] in Some (JObj o, r)
        end
      else if c =? 110 then
        let? r := strip_prefix (str "ull") rest in Some (JNull, r)
      else if c =? 116 then
        let? r := strip_prefix (str "rue") rest in Some (JBool true, r)
      else if c =? 102 then
        let? r := strip_prefix (str "alse") rest in Some (JBool false, r)
      else parse_number (c :: rest)
  end.
Proof. reflexivity. Qed.

Lemma parse_elements_S (f : nat) (s : jsstring) :
  parse_elements (S f) s =
  let? (v, r) := parse_value f s in
  match expect 44 r with
  | Some r' => let? (vs, r'') := parse_elements f r' in Some (v :: vs, r'')
  | None => let? r' := expect 93 r in Some ([v], r')
  end.
Proof. reflexivity. Qed.

Lemma parse_members_S (f : nat) (s : jsstring) (acc : list (jsstring * json)) :
  parse_members (S f) s acc =
  let? r0 := expect 34 s in
  let? (k, r1) := parse_chars r0 in
  let? r2 := expect 58 r1 in
  let? (v, r3) := parse_value f r2 in
  match expect 44 r3 with
  | Some r4 => parse_members f r4 (obj_set k v acc)
  | None => let? r4 := expect 125 r3 in Some (obj_set k v acc, r4)
  end.
Proof. reflexivity. Qed.

Lemma quoted_app (s rest : jsstring) :
  QuoteJSONString s ++ rest = 34 :: quote_units s ++ 34 :: rest.
Proof.
  unfold QuoteJSONString. cbn [app]. now rewrite <- app_assoc.
Qed.

Lemma parse_value_string (f : nat) (s rest : jsstring) :
  parse_value (S f) (QuoteJSONString s ++ rest) = Some (JStr s, rest).
Proof.
  rewrite parse_value_S, quoted_app. next_token.
  now rewrite parse_chars_quote_units.
Qed.

Lemma number_head (z : Z) :
  exists c tl, number_to_string z = c :: tl /\ (c = 45 \/ 48 <= c <= 57).
Proof.
  destruct z as [| p | p]; unfold number_to_string.
  - destruct (digits_head (Z.to_N 0)) as (d & tl & -> & Hd).
    exists (48 + d), tl. split; [reflexivity | lia].
  - destruct (digits_head (Z.to_N (Zpos p))) as (d & tl & -> & Hd).
    exists (48 + d), tl. split; [reflexivity | lia].
  - exists 45, (digits (Npos p)). split; [reflexivity | now left].
Qed.

Lemma parse_value_number (f : nat) (z : Z) (rest : jsstring) :
  parse_value (S f) (number_to_string z ++ 44 :: rest) =
  Some (JNum z 0, 44 :: rest).
Proof.
  rewrite parse_value_S, <- parse_number_to_string.
  destruct (number_head z) as (c & tl & -> & Hc). cbn [app skip_ws].
  assert (Hws : is_ws c = false).
  { unfold is_ws.
    repeat match goal with
           | |- context [c =? ?k] =>
               replace (c =? k) with false by (symmetry; apply N.eqb_neq; lia)
           end.
    reflexivity. }
  rewrite Hws.
  repeat match goal with
         | |- context [c =? ?k] =>
             replace (c =? k) with false by (symmetry; apply N.eqb_neq; lia)
         end.
  reflexivity.
Qed.

(** One member of an object, with more to come or as the last one. *)
Lemma parse_member_more (f : nat) (k printed rest : jsstring) (v : json)
    (acc : list (jsstring * json)) :
  parse_value (S f) (printed ++ 44 :: rest) = Some (v, 44 :: rest) ->
  parse_members (S (S f))
    (QuoteJSONString k ++ 58 :: printed ++ 44 :: rest) acc =
  parse_members (S f) rest (obj_set k v acc).
Proof.
  intros Hv. rewrite parse_members_S, quoted_app.
  unfold expect at 1. next_token.
  rewrite parse_chars_quote_units.
  unfold expect at 1. next_token.
  rewrite Hv. reflexivity.
Qed.

Lemma parse_member_last (f : nat) (k printed rest : jsstring) (v : json)
    (acc : list (jsstring * json)) :
  parse_value (S f) (printed ++ 125 :: rest) = Some (v, 125 :: rest) ->
  parse_members (S (S f))
    (QuoteJSONString k ++ 58 :: printed ++ 125 :: rest) acc =
  Some (obj_set k v acc, rest).
Proof.
  intros Hv. rewrite parse_members_S, quoted_app.
  unfold expect at 1. next_token.
  rewrite parse_chars_quote_units.
  unfold expect at 1. next_token.
  rewrite Hv. reflexivity.
Qed.

Lemma stringify_expense_app (x : Expense.t) (rest : jsstring) :
  stringify_expense x ++ rest =
  123 :: QuoteJSONString (str "id") ++ 58 ::
         number_to_string (Expense.id x) ++ 44 ::
         QuoteJSONString (str "amount") ++ 58 ::
         QuoteJSONString (Expense.amount x) ++ 44 ::
         QuoteJSONString (str "date") ++ 58 ::
         QuoteJSONString (Expense.date x) ++ 44 ::
         QuoteJSONString (str "note") ++ 58 ::
         QuoteJSONString (Expense.note x) ++ 125 :: rest.
Proof.
  unfold stringify_expense.
  change (str "{") with [123]. change (str "}") with [125].
  change (str ":") with [58]. change (str ",") with [44].
  repeat rewrite <- app_assoc. reflexivity.
Qed.

(** Six units of fuel read an expense back. *)
Lemma parse_value_expense (f : nat) (x : Expense.t) (rest : jsstring) :
  parse_value (6 + f) (stringify_expense x ++ rest) =
  Some (expense_to_json x, rest).
Proof.
  rewrite stringify_expense_app. cbn [Nat.add].
  rewrite parse_value_S. next_token.
  replace (expect 125 (QuoteJSONString (str "id") ++ _)) with (@None (list N))
    by (now rewrite quoted_app).
  rewrite (parse_member_more _ _ _ _ (JNum (Expense.id x) 0))
    by apply parse_value_number.
  rewrite (parse_member_more _ _ _ _ (JStr (Expense.amount x)))
    by apply parse_value_string.
  rewrite (parse_member_more _ _ _ _ (JStr (Expense.date x)))
    by apply parse_value_string.
  rewrite (parse_member_last _ _ _ _ (JStr (Expense.note x)))
    by apply parse_value_string.
  reflexivity.
Qed.

Lemma fuel_split (bound f : nat) :
  (bound <= f)%nat -> exists g, f = (bound + g)%nat.
Proof. intros H. exists (f - bound)%nat. lia. Qed.

(** The elements of a non-empty collection, up to the closing bracket. *)
Lemma parse_elements_expenses (x : Expense.t) (l : list Expense.t) :
  forall f rest,
    (7 + length l <= f)%nat ->
    parse_elements f
      (join_commas (map stringify_expense (x :: l)) ++ 93 :: rest) =
    Some (map expense_to_json (x :: l), rest).
Proof.
  revert x. induction l as [| y l IH]; intros x f rest Hf.
  - destruct (fuel_split 7 f) as (g & ->); [simpl in Hf; lia |].
    change (7 + g)%nat with (S (6 + g)). rewrite parse_elements_S.
    cbn [map join_commas]. rewrite parse_value_expense. reflexivity.
  - destruct (fuel_split 7 f) as (g & ->); [simpl in Hf; lia |].
    change (7 + g)%nat with (S (6 + g)). rewrite parse_elements_S.
    change (join_commas (map stringify_expense (x :: y :: l)))
      with (stringify_expense x ++
            44 :: join_commas (map stringify_expense (y :: l))).
    rewrite <- app_assoc. rewrite parse_value_expense.
    cbn [app]. unfold expect at 1. next_token.
    rewrite IH by (simpl in Hf |- *; lia). reflexivity.
Qed.

Lemma length_join_commas (l : list Expense.t) :
  (2 * length l <= length (join_commas (map stringify_expense l)))%nat.
Proof.
  induction l as [| x l IH]; [simpl; lia |].
  assert (Hx : (2 <= length (stringify_expense x))%nat).
  { rewrite <- (app_nil_r (stringify_expense x)), stringify_expense_app.
    rewrite quoted_app. simpl. lia. }
  destruct l as [| y l]; [simpl in *; lia |].
  change (join_commas (map stringify_expense (x :: y :: l)))
    with (stringify_expense x ++
          44 :: join_commas (map stringify_expense (y :: l))).
  rewrite length_app. cbn [length] in *. lia.
Qed.

(** Parsing the text of a collection gives the collection. *)
Lemma JSON_parse_stringify (l : list Expense.t) :
  JSON_parse (JSON_stringify l) = Some (expenses_to_json l).
Proof.
  destruct l as [| x l]; [reflexivity |].
  unfold JSON_parse, JSON_stringify, expenses_to_json.
  pose proof (length_join_commas (x :: l)) as Hlen.
  set (body := join_commas (map stringify_expense (x :: l))) in *.
  destruct (fuel_split (S (7 + length l)) (2 * length (91 :: body ++ [93])))
    as (g & ->).
  { cbn [length] in *. rewrite length_app. simpl. lia. }
  cbn [Nat.add]. rewrite parse_value_S.
  next_token.
  replace (expect 93 (body ++ [93])) with (@None (list N)).
  - unfold body. rewrite parse_elements_expenses by lia. reflexivity.
  - unfold body. cbn [map join_commas].
    destruct (map stringify_expense l);
      [rewrite stringify_expense_app | rewrite <- app_assoc,
                                         stringify_expense_app];
      reflexivity.
Qed.

Lemma expenses_to_json_inj (l l' : list Expense.t) :
  expenses_to_json l' = expenses_to_json l -> l' = l.
Proof.
  unfold expenses_to_json. intros H. injection H as H. revert l H.
  induction l' as [| x' l' IH]; intros [| x l] H; try discriminate;
    [reflexivity |].
  cbn [map] in H. unfold expense_to_json at 1 3 in H.
  injection H as Hid Ham Hda Hno Hl. f_equal; [| now apply IH].
  destruct x, x'. simpl in *. congruence.
Qed.

(** C7: the text the save effect stores for a collection is read back by
    the load effect as the array of that collection, record by record and
    field by field in the same order, and as the array of no other
    collection. *)
Theorem save_load_round_trip (l : list Expense.t) (stored : option jsstring)
    (current : json) :
  JSON_parse (JSON_stringify l) = Some (expenses_to_json l) /\
  loadEffect (ReadValue (saveEffect true l stored)) current =
    expenses_to_json l /\
  (forall l', expenses_to_json l' = expenses_to_json l -> l' = l).
Proof.
  split; [apply JSON_parse_stringify |]. split.
  - unfold saveEffect, loadEffect. rewrite JSON_parse_stringify. reflexivity.
  - intros l'. apply expenses_to_json_inj.
Qed.

Lemma save_load_round_trip_witness :
  loadEffect (ReadValue (saveEffect true (expenses lunchSaved) None))
             (JArr []) =
  expenses_to_json (expenses lunchSaved).
Proof.
  exact (proj1 (proj2 (save_load_round_trip (expenses lunchSaved) None
                         (JArr [])))).
Defined.

Lemma JSON_parse_empty : JSON_parse [] = None.
Proof. reflexivity. Qed.

(** C8: the load effect always yields a value.  When reading the storage
    throws, when nothing is stored, and when the stored string does not
    parse, the collection stays as it was, empty at start-up; when the
    stored string parses, the collection becomes the parsed value. *)
Theorem load_never_fails (r : ReadResult) (current : json) :
  loadEffect r current =
    match r with
    | ReadValue (Some savedExpenses) =>
        match JSON_parse savedExpenses with
        | Some v => v
        | None => current
        end
    | _ => current
    end /\
  loadEffect ReadThrows (JArr []) = JArr [] /\
  loadEffect (ReadValue None) (JArr []) = JArr [] /\
  (forall savedExpenses,
      JSON_parse savedExpenses = None ->
      loadEffect (ReadValue (Some savedExpenses)) (JArr []) = JArr []).
Proof.
  split; [| split; [reflexivity | split; [reflexivity |]]].
  - destruct r as [| [s |]]; try reflexivity.
    unfold loadEffect. destruct s as [| c s]; reflexivity.
  - intros s Hs. unfold loadEffect. rewrite Hs. now destruct (truthy s).
Qed.

Lemma load_never_fails_witness :
  loadEffect (ReadValue (Some (qstr "[{'id':1704067200000,'amou")))
             (JArr []) = JArr [].
Proof.
  apply (proj2 (proj2 (proj2 (load_never_fails ReadThrows (JArr []))))).
  reflexivity.
Defined.

End Persistence.

(** * The fuel of the parser is never what makes it fail *)

Section Fuel.

Local Open Scope nat_scope.

(** ** Every successful step consumes text *)

Lemma skip_ws_length (s : jsstring) : length (skip_ws s) <= length s.
Proof.
  induction s as [| c s IH]; simpl; [lia |].
  destruct (is_ws c); simpl; lia.
Qed.

Lemma expect_length (c : code_unit) (s r : jsstring) :
  expect c s = Some r -> length r < length s.
Proof.
  unfold expect. pose proof (skip_ws_length s) as Hs.
  destruct (skip_ws s) as [| x rest]; [discriminate |].
  destruct (x =? c)%N; [| discriminate].
  intros [= <-]. simpl in Hs. lia.
Qed.

Lemma strip_prefix_length (p : jsstring) :
  forall s r, strip_prefix p s = Some r -> length r <= length s.
Proof.
  induction p as [| x p IH]; intros s r; simpl.
  - intros [= <-]. lia.
  - destruct s as [| y s]; [discriminate |].
    destruct (x =? y)%N; [| discriminate].
    intros H. apply IH in H. simpl. lia.
Qed.

Lemma push_length (c : code_unit) (p : option (jsstring * jsstring))
    (cs r : jsstring) (n : nat) :
  (forall cs' r', p = Some (cs', r') -> length r' < n) ->
  push c p = Some (cs, r) -> length r < n.
Proof.
  intros Hp. unfold push. destruct p as [[cs' r'] |]; [| discriminate].
  intros [= _ <-]. now apply (Hp cs').
Qed.

Lemma parse_chars_length_le (n : nat) :
  forall s cs r,
    length s <= n -> parse_chars s = Some (cs, r) -> length r < length s.
Proof.
  induction n as [| n IH]; intros s cs r Hn.
  - destruct s; [discriminate | simpl in Hn; lia].
  - destruct s as [| c rest]; [discriminate |]. simpl in Hn.
    cbn [parse_chars length].
    destruct (c =? 34)%N; [intros [= _ <-]; lia |].
    destruct (c =? 92)%N.
    + destruct rest as [| e rest1]; [discriminate |].
      destruct (e =? 117)%N.
      * destruct rest1 as [| h3 [| h2 [| h1 [| h0 rest2]]]];
          try discriminate.
        destruct (hex4 h3 h2 h1 h0); [| discriminate].
        fold (push n0 (parse_chars rest2)).
        apply push_length. intros cs' r' H.
        apply IH in H; simpl in *; lia.
      * destruct (unescape e); [| discriminate].
        fold (push n0 (parse_chars rest1)).
        apply push_length. intros cs' r' H.
        apply IH in H; simpl in *; lia.
    + destruct (c <? 32)%N; [discriminate |].
      fold (push c (parse_chars rest)).
      apply push_length. intros cs' r' H.
      apply IH in H; simpl in *; lia.
Qed.

Lemma parse_chars_length (s cs r : jsstring) :
  parse_chars s = Some (cs, r) -> length r < length s.
Proof. now apply (parse_chars_length_le (length s)). Qed.

Lemma span_digits_length (s : jsstring) :
  length (snd (span_digits s)) <= length s.
Proof.
  induction s as [| c s IH]; simpl; [lia |].
  destruct (is_digit c); [| simpl; lia].
  destruct (span_digits s); simpl in *. lia.
Qed.

Lemma parse_int_part_length (s r : jsstring) (i : N) :
  parse_int_part s = Some (i, r) -> length r < length s.
Proof.
  unfold parse_int_part. destruct s as [| c rest]; [discriminate |].
  destruct (c =? 48)%N; [intros [= _ <-]; simpl; lia |].
  pose proof (span_digits_length rest) as Hsp.
  cbn [span_digits]. destruct (is_digit c); [| discriminate].
  destruct (span_digits rest) as [ds r']. intros [= _ <-].
  simpl in *. lia.
Qed.

Lemma parse_frac_length (s r : jsstring) (fs : list N) :
  parse_frac s = Some (fs, r) -> length r <= length s.
Proof.
  unfold parse_frac. destruct s as [| c rest]; [intros [= _ <-]; lia |].
  destruct (c =? 46)%N; [| intros [= _ <-]; lia].
  pose proof (span_digits_length rest) as Hsp.
  destruct (span_digits rest) as [[| d ds] r']; [discriminate |].
  intros [= _ <-]. simpl in *. lia.
Qed.

Lemma parse_exp_length (s r : jsstring) (e : Z) :
  parse_exp s = Some (e, r) -> length r <= length s.
Proof.
  unfold parse_exp. destruct s as [| c rest]; [intros [= _ <-]; lia |].
  destruct ((c =? 101) || (c =? 69))%N; [| intros [= _ <-]; lia].
  destruct (match rest with
            | x :: rest' =>
                if (x =? 45)%N then (true, rest')
                else if (x =? 43)%N then (false, rest') else (false, rest)
            | [] => (false, rest)
            end) as [neg r1] eqn:E.
  assert (Hsign : length r1 <= length rest).
  { clear - E. destruct rest as [| x rest']; [injection E as _ <-; lia |].
    destruct (x =? 45)%N; [injection E as _ <-; simpl; lia |].
    destruct (x =? 43)%N; injection E as _ <-; simpl; lia. }
  pose proof (span_digits_length r1) as Hsp.
  destruct (span_digits r1) as [[| d ds] r2]; [discriminate |].
  intros [= _ <-]. simpl in *. lia.
Qed.

Lemma parse_number_length (s r : jsstring) (v : json) :
  parse_number s = Some (v, r) -> length r < length s.
Proof.
  unfold parse_number.
  destruct (match s with
            | c :: rest => if (c =? 45)%N then (true, rest) else (false, s)
            | [] => (false, s)
            end) as [neg s1] eqn:E.
  assert (Hsign : length s1 <= length s).
  { clear - E. destruct s as [| c rest]; [injection E as _ <-; lia |].
    destruct (c =? 45)%N; injection E as _ <-; simpl; lia. }
  destruct (parse_int_part s1) as [[i s2] |] eqn:Ei; [| discriminate].
  destruct (parse_frac s2) as [[fs s3] |] eqn:Ef; [| discriminate].
  destruct (parse_exp s3) as [[e s4] |] eqn:Ee; [| discriminate].
  apply parse_int_part_length in Ei. apply parse_frac_length in Ef.
  apply parse_exp_length in Ee. intros [= _ <-]. lia.
Qed.

Lemma parse_consumes (f : nat) :
  (forall s v r, parse_value f s = Some (v, r) -> length r < length s) /\
  (forall s vs r, parse_elements f s = Some (vs, r) -> length r < length s) /\
  (forall s acc o r,
      parse_members f s acc = Some (o, r) -> length r < length s).
Proof.
  induction f as [| f (IHv & IHe & IHm)]; [repeat split; discriminate |].
  split; [| split].
  - intros s v r. rewrite parse_value_S.
    pose proof (skip_ws_length s) as Hs.
    destruct (skip_ws s) as [| c rest]; [discriminate |]. simpl in Hs.
    destruct (c =? 34)%N.
    { destruct (parse_chars rest) as [[x r'] |] eqn:E; [| discriminate].
      apply parse_chars_length in E. intros [= _ <-]. lia. }
    destruct (c =? 91)%N.
    { destruct (expect 93 rest) as [r0 |] eqn:E.
      - apply expect_length in E. intros [= _ <-]. lia.
      - destruct (parse_elements f rest) as [[vs r'] |] eqn:E';
          [| discriminate].
        apply IHe in E'. intros [= _ <-]. lia. }
    destruct (c =? 123)%N.
    { destruct (expect 125 rest) as [r0 |] eqn:E.
      - apply expect_length in E. intros [= _ <-]. lia.
      - destruct (parse_members f rest []) as [[o r'] |] eqn:E';
          [| discriminate].
        apply IHm in E'. intros [= _ <-]. lia. }
    destruct (c =? 110)%N.
    { destruct (strip_prefix (str "ull") rest) as [r' |] eqn:E;
        [| discriminate].
      apply strip_prefix_length in E. intros [= _ <-]. lia. }
    destruct (c =? 116)%N.
    { destruct (strip_prefix (str "rue") rest) as [r' |] eqn:E;
        [| discriminate].
      apply strip_prefix_length in E. intros [= _ <-]. lia. }
    destruct (c =? 102)%N.
    { destruct (strip_prefix (str "alse") rest) as [r' |] eqn:E;
        [| discriminate].
      apply strip_prefix_length in E. intros [= _ <-]. lia. }
    intros H. apply parse_number_length in H. simpl in H. lia.
  - intros s vs r. rewrite parse_elements_S.
    destruct (parse_value f s) as [[v r1] |] eqn:Ev; [| discriminate].
    apply IHv in Ev.
    destruct (expect 44 r1) as [r2 |] eqn:Ec.
    + apply expect_length in Ec.
      destruct (parse_elements f r2) as [[vs' r3] |] eqn:Ee; [| discriminate].
      apply IHe in Ee. intros [= _ <-]. lia.
    + destruct (expect 93 r1) as [r2 |] eqn:Eb; [| discriminate].
      apply expect_length in Eb. intros [= _ <-]. lia.
  - intros s acc o r. rewrite parse_members_S.
    destruct (expect 34 s) as [r0 |] eqn:E0; [| discriminate].
    apply expect_length in E0.
    destruct (parse_chars r0) as [[k r1] |] eqn:E1; [| discriminate].
    apply parse_chars_length in E1.
    destruct (expect 58 r1) as [r2 |] eqn:E2; [| discriminate].
    apply expect_length in E2.
    destruct (parse_value f r2) as [[v r3] |] eqn:E3; [| discriminate].
    apply IHv in E3.
    destruct (expect 44 r3) as [r4 |] eqn:E4.
    + apply expect_length in E4. intros H. apply IHm in H. lia.
    + destruct (expect 125 r3) as [r4 |] eqn:E5; [| discriminate].
      apply expect_length in E5. intros [= _ <-]. lia.
Qed.

(** ** Two units of fuel for each character consumed are enough *)

Lemma parse_fuel_enough (f : nat) :
  (forall s v r,
      parse_value f s = Some (v, r) ->
      forall g, 2 * (length s - length r) <= g ->
                parse_value g s = Some (v, r)) /\
  (forall s vs r,
      parse_elements f s = Some (vs, r) ->
      forall g, 2 * (length s - length r) <= g ->
                parse_elements g s = Some (vs, r)) /\
  (forall s acc o r,
      parse_members f s acc = Some (o, r) ->
      forall g, 2 * (length s - length r) <= g ->
                parse_members g s acc = Some (o, r)).
Proof.
  induction f as [| f (IHv & IHe & IHm)]; [repeat split; discriminate |].
  destruct (parse_consumes f) as (Cv & Ce & Cm).
  split; [| split].
  - intros s v r H g Hg.
    pose proof (proj1 (parse_consumes (S f)) _ _ _ H) as Hlt.
    destruct g as [| g]; [lia |].
    revert H. rewrite !parse_value_S.
    pose proof (skip_ws_length s) as Hs.
    destruct (skip_ws s) as [| c rest]; [discriminate |]. simpl in Hs.
    destruct (c =? 34)%N; [trivial |].
    destruct (c =? 91)%N.
    { destruct (expect 93 rest) as [r0 |]; [trivial |].
      destruct (parse_elements f rest) as [[vs r'] |] eqn:E; [| discriminate].
      intros [= <- <-]. rewrite (IHe _ _ _ E g) by lia. reflexivity. }
    destruct (c =? 123)%N.
    { destruct (expect 125 rest) as [r0 |]; [trivial |].
      destruct (parse_members f rest []) as [[o r'] |] eqn:E;
        [| discriminate].
      intros [= <- <-]. rewrite (IHm _ _ _ _ E g) by lia. reflexivity. }
    trivial.
  - intros s vs r H g Hg.
    pose proof (proj1 (proj2 (parse_consumes (S f))) _ _ _ H) as Hlt.
    destruct g as [| g]; [lia |].
    revert H. rewrite !parse_elements_S.
    destruct (parse_value f s) as [[v r1] |] eqn:Ev; [| discriminate].
    pose proof (Cv _ _ _ Ev) as Hv.
    destruct (expect 44 r1) as [r2 |] eqn:Ec.
    + pose proof (expect_length _ _ _ Ec) as Hc.
      destruct (parse_elements f r2) as [[vs' r3] |] eqn:Ee; [| discriminate].
      pose proof (Ce _ _ _ Ee) as He.
      intros [= <- <-].
      rewrite (IHv _ _ _ Ev g) by lia. rewrite Ec.
      rewrite (IHe _ _ _ Ee g) by lia. reflexivity.
    + destruct (expect 93 r1) as [r2 |] eqn:Eb; [| discriminate].
      pose proof (expect_length _ _ _ Eb) as Hb.
      intros [= <- <-].
      rewrite (IHv _ _ _ Ev g) by lia. rewrite Ec, Eb. reflexivity.
  - intros s acc o r H g Hg.
    pose proof (proj2 (proj2 (parse_consumes (S f))) _ _ _ _ H) as Hlt.
    destruct g as [| g]; [lia |].
    revert H. rewrite !parse_members_S.
    destruct (expect 34 s) as [r0 |] eqn:E0; [| discriminate].
    apply expect_length in E0.
    destruct (parse_chars r0) as [[k r1] |] eqn:E1; [| discriminate].
    apply parse_chars_length in E1.
    destruct (expect 58 r1) as [r2 |] eqn:E2; [| discriminate].
    apply expect_length in E2.
    destruct (parse_value f r2) as [[v r3] |] eqn:E3; [| discriminate].
    pose proof (Cv _ _ _ E3) as H3.
    destruct (expect 44 r3) as [r4 |] eqn:E4.
    + pose proof (expect_length _ _ _ E4) as H4. intros H.
      pose proof (Cm _ _ _ _ H) as H5.
      rewrite (IHv _ _ _ E3 g) by lia. rewrite E4.
      apply (IHm _ _ _ _ H g). lia.
    + destruct (expect 125 r3) as [r4 |] eqn:E5; [| discriminate].
      pose proof (expect_length _ _ _ E5) as H5.
      intros [= <- <-].
      rewrite (IHv _ _ _ E3 g) by lia. rewrite E4, E5. reflexivity.
Qed.

(** Whatever some amount of fuel parses, the fuel of [JSON_parse] parses:
    [JSON_parse] rejects exactly the texts that are not one JSON value
    between white space. *)
Lemma JSON_parse_fuel (f : nat) (text : jsstring) (v : json) (r : jsstring) :
  parse_value f text = Some (v, r) ->
  parse_value (2 * length text) text = Some (v, r).
Proof.
  intros H. apply (proj1 (parse_fuel_enough f) _ _ _ H). lia.
Qed.

Lemma JSON_parse_complete (f : nat) (text : jsstring) (v : json) (r : jsstring) :
  parse_value f text = Some (v, r) -> skip_ws r = [] ->
  JSON_parse text = Some v.
Proof.
  intros H Hr. unfold JSON_parse.
  rewrite (JSON_parse_fuel f text v r H), Hr. reflexivity.
Qed.

End Fuel.

(** * Further properties of sessions *)

Section Sessions.

Local Open Scope Z_scope.

Lemma run_app (evs1 evs2 : list Event) (st : AppState) :
  run (evs1 ++ evs2) st = run evs2 (run evs1 st).
Proof. apply fold_left_app. Qed.

(** ** Typing *)

Lemma getField_setField (name name' : FieldName) (v : jsstring)
    (d : FormData.t) :
  getField name (setField name' v d) =
  if FieldName_eqb name' name then v else getField name d.
Proof. now destruct name, name'. Qed.

(** X1: after any run of key strokes an input shows the value of its last
    change, or what it showed before when it did not change; the strokes
    leave the collection and the edit session alone. *)
Theorem typing_last_write_wins (keys : list (FieldName * jsstring))
    (name : FieldName) (st : AppState) :
  getField name (formData (run (typed keys) st)) =
    match lastTyped name keys with
    | Some v => v
    | None => getField name (formData st)
    end /\
  expenses (run (typed keys) st) = expenses st /\
  editingId (run (typed keys) st) = editingId st.
Proof.
  revert st. induction keys as [| [n v] keys IH]; intros st.
  - repeat split.
  - change (run (typed ((n, v) :: keys)) st)
      with (run (typed keys) (handleInputChange n v st)).
    destruct (IH (handleInputChange n v st)) as (Hf & He & Hs).
    rewrite Hf, He, Hs. cbn [lastTyped fst snd].
    destruct (lastTyped name keys) as [w |]; [repeat split |].
    cbn [handleInputChange formData expenses editingId].
    rewrite getField_setField.
    destruct (FieldName_eqb n name); repeat split.
Qed.

(** ** Cancel *)

Lemma readOnly_step (ev : Event) (st : AppState) :
  readOnly ev = true -> expenses (step st ev) = expenses st.
Proof.
  destruct ev as [name value | now | expense | id confirmed |]; simpl;
    try reflexivity; try discriminate.
  destruct confirmed; [discriminate | reflexivity].
Qed.

Lemma readOnly_run (evs : list Event) :
  forall st, forallb readOnly evs = true ->
             expenses (run evs st) = expenses st.
Proof.
  induction evs as [| ev evs IH]; intros st H; [reflexivity |].
  cbn [forallb] in H. apply andb_true_iff in H as [Hev Hevs].
  change (run (ev :: evs) st) with (run evs (step st ev)).
  rewrite IH by exact Hevs. now apply readOnly_step.
Qed.

(** X2: whatever was typed, whichever Edit buttons were clicked and
    whichever deletions were declined, Cancel gives back the state the
    form had to start with: the same collection, an empty draft and no edit
    session. *)
Theorem cancel_discards_unsaved (evs : list Event) (st : AppState) :
  forallb readOnly evs = true ->
  run (evs ++ [CancelClick]) st = resetForm st.
Proof.
  intros H. rewrite run_app. cbn [run fold_left step]. unfold resetForm.
  now rewrite readOnly_run.
Qed.

Lemma cancel_discards_unsaved_witness :
  run ([EditClick (Expense.mk 1704067200000 (str "12.50") (str "2024-01-01")
                              (str "Lunch"));
        InputChange Amount (str "99");
        DeleteClick 1704067200000 false] ++ [CancelClick]) lunchSaved =
  resetForm lunchSaved.
Proof.
  apply (cancel_discards_unsaved
           [EditClick (Expense.mk 1704067200000 (str "12.50")
                                  (str "2024-01-01") (str "Lunch"));
            InputChange Amount (str "99");
            DeleteClick 1704067200000 false] lunchSaved).
  reflexivity.
Defined.

(** ** Edit without a change *)

Lemma same_id_same_expense (l : list Expense.t) (x y : Expense.t) :
  NoDup (ids l) -> In x l -> In y l -> Expense.id x = Expense.id y -> x = y.
Proof.
  induction l as [| a l IH]; intros Hnd Hx Hy Hid; [contradiction |].
  cbn [ids map] in Hnd. inversion Hnd as [| ? ? Hnotin Hnd']; subst.
  destruct Hx as [-> | Hx], Hy as [-> | Hy].
  - reflexivity.
  - exfalso. apply Hnotin. rewrite Hid. now apply in_map.
  - exfalso. apply Hnotin. rewrite <- Hid. now apply in_map.
  - now apply IH.
Qed.

(** X3: clicking Edit on an expense of a collection whose ids are unique
    and submitting the form as it was filled leaves the collection as it
    is. *)
Theorem edit_unchanged_submit (now : Z) (e : Expense.t) (st : AppState) :
  In e (expenses st) ->
  NoDup (ids (expenses st)) ->
  expenses (snd (handleFormSubmit now (handleEditClick e st))) = expenses st.
Proof.
  intros Hin Hnd. unfold handleFormSubmit.
  destruct (missingField (formData (handleEditClick e st))); [reflexivity |].
  cbn [handleEditClick editingId formData expenses snd resetForm].
  apply map_fixed. intros x Hx.
  destruct (Expense.id x =? Expense.id e) eqn:E; [| reflexivity].
  apply Z.eqb_eq in E.
  rewrite (same_id_same_expense (expenses st) x e Hnd Hx Hin E).
  now destruct e.
Qed.

Lemma edit_unchanged_submit_witness :
  expenses (snd (handleFormSubmit 1704067260000
    (handleEditClick (Expense.mk 1704067200000 (str "12.50")
                                 (str "2024-01-01") (str "Lunch"))
                     lunchSaved))) = expenses lunchSaved.
Proof.
  apply (edit_unchanged_submit 1704067260000
           (Expense.mk 1704067200000 (str "12.50") (str "2024-01-01")
                       (str "Lunch")) lunchSaved).
  - left. reflexivity.
  - constructor; [intros [] | constructor].
Defined.

(** ** What every session keeps *)

Lemma filled_missingField (d : FormData.t) :
  missingField d = false -> filled d.
Proof.
  unfold missingField, filled. intros H.
  apply orb_false_iff in H as [H Hn]. apply orb_false_iff in H as [Ha Hd].
  apply negb_false_iff, truthy_iff in Ha, Hd, Hn. now repeat split.
Qed.

Lemma step_filled (st : AppState) (ev : Event) :
  Forall filledExpense (expenses st) ->
  Forall filledExpense (expenses (step st ev)).
Proof.
  intros Hall.
  destruct ev as [name value | now | expense | id confirmed |]; simpl;
    try assumption.
  - unfold handleFormSubmit.
    destruct (missingField (formData st)) eqn:Hm; simpl; [assumption |].
    apply filled_missingField in Hm.
    destruct (editingId st) as [eid |]; simpl.
    + apply Forall_map. revert Hall. apply Forall_impl. intros x Hx.
      now destruct (Expense.id x =? eid).
    + constructor; assumption.
  - unfold handleDeleteClick. destruct confirmed; simpl; [| assumption].
    apply Forall_forall. intros x Hx. apply filter_In in Hx as [Hx _].
    revert x Hx. now apply Forall_forall.
Qed.

Lemma run_filled (evs : list Event) :
  forall st, Forall filledExpense (expenses st) ->
             Forall filledExpense (expenses (run evs st)).
Proof.
  induction evs as [| ev evs IH]; intros st H; [exact H |].
  apply (IH (step st ev)). now apply step_filled.
Qed.

(** X4: in every session that starts from the empty collection, every
    expense of the collection has an amount, a date and a note that are
    not empty. *)
Theorem session_expenses_filled (evs : list Event) :
  Forall filledExpense (expenses (run evs initialState)).
Proof. apply run_filled. constructor. Qed.



Lemma sorted_ids_filter (p : Expense.t -> bool) (l : list Expense.t) :
  StronglySorted Z.gt (ids l) -> StronglySorted Z.gt (ids (filter p l)).
Proof.
  induction l as [| a l IH]; cbn [filter ids map]; intros H; [constructor |].
  apply StronglySorted_inv in H as [Hl Ha].
  destruct (p a); [| now apply IH].
  cbn [ids map]. constructor; [now apply IH |].
  apply Forall_forall. intros z Hz. apply (ids_filter_incl p l) in Hz.
  revert z Hz. now apply Forall_forall.
Qed.

Lemma step_sorted (st : AppState) (ev : Event) :
  StronglySorted Z.gt (ids (expenses st)) ->
  (forall z t, In z (ids (expenses st)) -> In t (timestamps [ev]) -> z < t) ->
  StronglySorted Z.gt (ids (expenses (step st ev))).
Proof.
  intros Hs Hlt.
  destruct ev as [name value | now | expense | id confirmed |]; simpl;
    try assumption.
  - unfold handleFormSubmit.
    destruct (missingField (formData st)); simpl; [assumption |].
    destruct (editingId st) as [eid |]; simpl.
    + now rewrite ids_update.
    + constructor; [assumption |]. apply Forall_forall. intros z Hz.
      apply Z.lt_gt, Hlt; [assumption | now left].
  - unfold handleDeleteClick. destruct confirmed; simpl; [| assumption].
    now apply sorted_ids_filter.
Qed.

Lemma run_sorted (evs : list Event) :
  forall st,
    StronglySorted Z.gt (ids (expenses st)) ->
    StronglySorted Z.lt (timestamps evs) ->
    (forall z t, In z (ids (expenses st)) -> In t (timestamps evs) -> z < t) ->
    StronglySorted Z.gt (ids (expenses (run evs st))).
Proof.
  induction evs as [| ev evs IH]; intros st Hs Hts Hlt; [exact Hs |].
  change (run (ev :: evs) st) with (run evs (step st ev)).
  rewrite timestamps_cons in Hts, Hlt.
  apply IH.
  - apply step_sorted; [assumption |]. intros z t Hz Ht.
    apply Hlt; [assumption | apply in_or_app; now left].
  - destruct ev; simpl in Hts; try assumption.
    now apply StronglySorted_inv in Hts.
  - intros z t Hz Ht. apply step_ids_incl, in_app_or in Hz as [Hz | Hz].
    + destruct ev; simpl in Hz; try contradiction.
      destruct Hz as [<- | []]. simpl in Hts.
      apply StronglySorted_inv in Hts as [_ Hall].
      revert t Ht. now apply Forall_forall.
    + apply Hlt; [assumption | apply in_or_app; now right].
Qed.

(** X6: in a session that starts from the empty collection and whose
    submissions read increasing values from the clock, the collection is
    always in the order newest first: the ids decrease along it. *)
Theorem session_newest_first (evs : list Event) :
  StronglySorted Z.lt (timestamps evs) ->
  StronglySorted Z.gt (ids (expenses (run evs initialState))).
Proof.
  intros Hts. apply run_sorted; [constructor | assumption |].
  intros z t [].
Qed.

Lemma session_newest_first_witness :
  StronglySorted Z.gt (ids (expenses (run
    (fillForm lunch ++ [FormSubmit 1704067200000]
     ++ fillForm lunch ++ [FormSubmit 1704067200001]) initialState))).
Proof.
  apply (session_newest_first
    (fillForm lunch ++ [FormSubmit 1704067200000]
     ++ fillForm lunch ++ [FormSubmit 1704067200001])).
  simpl. constructor.
  - constructor; [constructor | constructor].
  - constructor; [lia | constructor].
Defined.

(** ** Deleting *)

Lemma length_filter_unique (id : Z) (l : list Expense.t) :
  NoDup (ids l) -> In id (ids l) ->
  S (length (filter (fun x => negb (Expense.id x =? id)) l)) = length l.
Proof.
  induction l as [| a l IH]; cbn [ids map filter length]; intros Hnd Hin;
    [contradiction |].
  inversion Hnd as [| ? ? Hnotin Hnd']; subst.
  destruct (Z.eqb_spec (Expense.id a) id) as [Heq | Hne]; cbn [negb].
  - subst id. f_equal. f_equal. apply filter_all. intros x Hx.
    apply negb_true_iff, Z.eqb_neq. intros Hid. apply Hnotin.
    rewrite <- Hid. now apply in_map.
  - cbn [length]. f_equal. apply IH; [assumption |].
    destruct Hin as [Hin | Hin]; [contradiction | assumption].
Qed.

(** X7: in a collection whose ids are unique, a confirmed deletion of an
    id that is present removes exactly one expense. *)
Theorem delete_removes_one (id : Z) (st : AppState) :
  NoDup (ids (expenses st)) ->
  In id (ids (expenses st)) ->
  S (length (expenses (handleDeleteClick id true st))) = length (expenses st).
Proof.
  intros Hnd Hin. unfold handleDeleteClick. cbn [expenses].
  now apply length_filter_unique.
Qed.

Lemma delete_removes_one_witness :
  S (length (expenses (handleDeleteClick 1704067200000 true lunchSaved))) =
  length (expenses lunchSaved).
Proof.
  apply (delete_removes_one 1704067200000 lunchSaved).
  - constructor; [intros [] | constructor].
  - left. reflexivity.
Defined.

Lemma filter_swap {A} (p q : A -> bool) (l : list A) :
  filter p (filter q l) = filter q (filter p l).
Proof.
  induction l as [| a l IH]; [reflexivity |]. cbn [filter].
  destruct (p a) eqn:Hp, (q a) eqn:Hq; cbn [filter];
    rewrite ?Hp, ?Hq, IH; reflexivity.
Qed.

Lemma filter_twice {A} (p : A -> bool) (l : list A) :
  filter p (filter p l) = filter p l.
Proof.
  apply filter_all. intros x Hx. now apply filter_In in Hx as [_ Hp].
Qed.

(** X8: deletions can be done in either order, and deleting an id a second
    time changes nothing. *)
Theorem delete_commutes (a b : Z) (ca cb : bool) (st : AppState) :
  handleDeleteClick a ca (handleDeleteClick b cb st) =
    handleDeleteClick b cb (handleDeleteClick a ca st) /\
  handleDeleteClick a ca (handleDeleteClick a ca st) =
    handleDeleteClick a ca st.
Proof.
  unfold handleDeleteClick.
  destruct ca, cb; cbn [expenses formData editingId]; split;
    try reflexivity.
  - f_equal. apply filter_swap.
  - f_equal. apply filter_twice.
  - f_equal. apply filter_twice.
Qed.

(** X9: adding an expense whose id is new to the collection and deleting
    that id gives the collection back. *)
Theorem add_then_delete (now : Z) (st : AppState) :
  editingId st = None ->
  filled (formData st) ->
  ~ In now (ids (expenses st)) ->
  expenses (handleDeleteClick now true (snd (handleFormSubmit now st))) =
  expenses st.
Proof.
  intros Hadd Hfilled Hfresh. unfold handleFormSubmit.
  rewrite (missingField_false _ Hfilled), Hadd.
  cbn [snd resetForm expenses handleDeleteClick filter newExpense Expense.id].
  rewrite Z.eqb_refl. cbn [negb].
  apply filter_all. intros x Hx. apply negb_true_iff, Z.eqb_neq.
  intros Hid. apply Hfresh. rewrite <- Hid. unfold ids. now apply in_map.
Qed.

Lemma add_then_delete_witness :
  expenses (handleDeleteClick 1704067260000 true
              (snd (handleFormSubmit 1704067260000
                      (mkApp (expenses lunchSaved) lunch None)))) =
  expenses (mkApp (expenses lunchSaved) lunch None).
Proof.
  apply (add_then_delete 1704067260000
           (mkApp (expenses lunchSaved) lunch None)).
  - reflexivity.
  - repeat split; discriminate.
  - simpl. intros [H | []]. discriminate H.
Defined.

(** ** Deleting while a form is being filled *)

Lemma filter_update (b eid : Z) (d : FormData.t) (l : list Expense.t) :
  filter (fun x => negb (Expense.id x =? b))
         (map (fun expense =>
                 if Expense.id expense =? eid then spreadForm expense d
                 else expense) l) =
  map (fun expense =>
         if Expense.id expense =? eid then spreadForm expense d
         else expense)
      (filter (fun x => negb (Expense.id x =? b)) l).
Proof.
  induction l as [| a l IH]; [reflexivity |]. cbn [map filter].
  replace (Expense.id (if Expense.id a =? eid then spreadForm a d else a))
    with (Expense.id a) by now destruct (Expense.id a =? eid).
  destruct (negb (Expense.id a =? b)); cbn [map]; now rewrite IH.
Qed.

(** X15: a deletion and a submission give the same state in either order,
    unless the submission adds an expense under the very id that is
    deleted.  In particular, deleting an expense while another one is being
    edited does not disturb the edit. *)
Theorem delete_submit_commute (now b : Z) (confirmed : bool) (st : AppState) :
  (editingId st = None -> now <> b) ->
  snd (handleFormSubmit now (handleDeleteClick b confirmed st)) =
  handleDeleteClick b confirmed (snd (handleFormSubmit now st)).
Proof.
  intros Hfresh. unfold handleDeleteClick.
  destruct confirmed; [| reflexivity].
  unfold handleFormSubmit. cbn [formData editingId expenses].
  destruct (missingField (formData st)); [reflexivity |].
  destruct (editingId st) as [eid |];
    cbn [snd resetForm expenses formData editingId].
  - now rewrite filter_update.
  - cbn [filter newExpense Expense.id].
    specialize (Hfresh eq_refl). apply Z.eqb_neq in Hfresh.
    now rewrite Hfresh.
Qed.

Lemma delete_submit_commute_witness :
  snd (handleFormSubmit 1704067260000
         (handleDeleteClick 1704067200000 true
            (mkApp (expenses lunchSaved) lunch (Some 1704067200000)))) =
  handleDeleteClick 1704067200000 true
    (snd (handleFormSubmit 1704067260000
            (mkApp (expenses lunchSaved) lunch (Some 1704067200000)))).
Proof.
  apply (delete_submit_commute 1704067260000 1704067200000 true
           (mkApp (expenses lunchSaved) lunch (Some 1704067200000))).
  discriminate.
Defined.

End Sessions.

(** * Further properties of the stored text *)

Section Storage.

Local Open Scope N_scope.

(** X10: the text the save effect stores determines the collection: two
    collections with the same text are the same. *)
Theorem JSON_stringify_inj (l l' : list Expense.t) :
  JSON_stringify l = JSON_stringify l' -> l = l'.
Proof.
  intros H. apply expenses_to_json_inj.
  pose proof (JSON_parse_stringify l) as Hl.
  rewrite H, JSON_parse_stringify in Hl. injection Hl as Hl.
  unfold expenses_to_json. now rewrite Hl.
Qed.

Lemma JSON_stringify_inj_witness :
  expenses lunchSaved = expenses (resetForm lunchSaved).
Proof.
  apply (JSON_stringify_inj (expenses lunchSaved)
           (expenses (resetForm lunchSaved))).
  reflexivity.
Defined.

(** ** Save after save *)

Lemma saveAll_lastWritten (attempts : list (bool * list Expense.t)) :
  forall stored,
    saveAll attempts stored =
    match lastWritten attempts with
    | Some l => Some (JSON_stringify l)
    | None => stored
    end.
Proof.
  induction attempts as [| [w l] attempts IH]; intros stored; [reflexivity |].
  change (saveAll ((w, l) :: attempts) stored)
    with (saveAll attempts (saveEffect w l stored)).
  rewrite IH. cbn [lastWritten fst snd].
  destruct (lastWritten attempts); [reflexivity |].
  unfold saveEffect. now destruct w.
Qed.

(** X11: after any number of saves, some of which may have failed, the
    load effect reads the collection of the last save that went through,
    and what it would have read before them when none did. *)
Theorem load_after_saves (attempts : list (bool * list Expense.t))
    (stored : option jsstring) (current : json) :
  loadEffect (ReadValue (saveAll attempts stored)) current =
  match lastWritten attempts with
  | Some l => expenses_to_json l
  | None => loadEffect (ReadValue stored) current
  end.
Proof.
  rewrite saveAll_lastWritten.
  destruct (lastWritten attempts) as [l |]; [| reflexivity].
  unfold loadEffect. rewrite JSON_parse_stringify. reflexivity.
Qed.

(** ** White space *)

Lemma skip_ws_all (s : jsstring) : forallb is_ws s = true -> skip_ws s = [].
Proof.
  induction s as [| c s IH]; [reflexivity |]. cbn [forallb skip_ws].
  intros H. apply andb_true_iff in H as [-> Hs]. now apply IH.
Qed.

(** X12: a stored string of nothing but white space, the empty string
    included, is not JSON text: the load effect leaves the collection as it
    was. *)
Theorem load_white_space (s : jsstring) (current : json) :
  forallb is_ws s = true ->
  JSON_parse s = None /\ loadEffect (ReadValue (Some s)) current = current.
Proof.
  intros H. apply skip_ws_all in H.
  assert (Hp : JSON_parse s = None).
  { unfold JSON_parse. destruct (2 * length s)%nat as [| f]; [reflexivity |].
    now rewrite parse_value_S, H. }
  split; [exact Hp |]. unfold loadEffect. rewrite Hp.
  now destruct (truthy s).
Qed.

Lemma load_white_space_witness :
  JSON_parse (str "  ") = None /\
  loadEffect (ReadValue (Some (str "  "))) (JArr []) = JArr [].
Proof.
  apply (load_white_space (str "  ") (JArr [])). reflexivity.
Defined.

Lemma parse_value_skip (f : nat) (c : code_unit) (text : jsstring) :
  is_ws c = true -> parse_value f (c :: text) = parse_value f text.
Proof.
  intros Hc. destruct f as [| f]; [reflexivity |].
  rewrite !parse_value_S. cbn [skip_ws]. now rewrite Hc.
Qed.

Lemma parse_value_more_fuel (text : jsstring) :
  parse_value (2 * length (0 :: text)) text =
  parse_value (2 * length text) text.
Proof.
  destruct (parse_value (2 * length text) text) as [[v r] |] eqn:E.
  - apply (proj1 (parse_fuel_enough _) _ _ _ E). cbn [length]. lia.
  - destruct (parse_value (2 * length (0 :: text)) text) as [[v r] |] eqn:E';
      [| reflexivity].
    apply JSON_parse_fuel in E'. congruence.
Qed.

(** X13: white space in front of the stored text changes nothing to what
    the load effect reads. *)
Theorem load_leading_white_space (w text : jsstring) (current : json) :
  forallb is_ws w = true ->
  JSON_parse (w ++ text) = JSON_parse text /\
  loadEffect (ReadValue (Some (w ++ text))) current =
    loadEffect (ReadValue (Some text)) current.
Proof.
  intros Hw.
  assert (Hp : JSON_parse (w ++ text) = JSON_parse text).
  { induction w as [| c w IH]; [reflexivity |].
    cbn [forallb] in Hw. apply andb_true_iff in Hw as [Hc Hw].
    rewrite <- (IH Hw). unfold JSON_parse. cbn [app].
    rewrite (parse_value_skip _ c (w ++ text) Hc).
    change (length (c :: w ++ text)) with (length (0 :: w ++ text)).
    now rewrite parse_value_more_fuel. }
  split; [exact Hp |]. unfold loadEffect. rewrite Hp.
  destruct text as [| t text].
  - rewrite JSON_parse_empty. now destruct (truthy (w ++ [])).
  - now destruct w.
Qed.

Lemma load_leading_white_space_witness :
  JSON_parse (str " " ++ str "[]") = JSON_parse (str "[]") /\
  loadEffect (ReadValue (Some (str " " ++ str "[]"))) JNull =
    loadEffect (ReadValue (Some (str "[]"))) JNull.
Proof.
  apply (load_leading_white_space (str " ") (str "[]") JNull).
  reflexivity.
Defined.

(** ** No control characters *)

Lemma hex_digit_printable (v : N) : 32 <= hex_digit v.
Proof. unfold hex_digit. destruct (v <? 10); lia. Qed.

Lemma unicode_escape_printable (c : code_unit) :
  Forall (fun u => 32 <= u) (unicode_escape c).
Proof.
  unfold unicode_escape.
  repeat (constructor; [first [apply hex_digit_printable | lia] |]).
  constructor.
Qed.

Lemma quote_unit_printable (c : code_unit) :
  Forall (fun u => 32 <= u) (quote_unit c).
Proof.
  unfold quote_unit.
  repeat match goal with
         | |- context [if ?x =? ?k then _ else _] =>
             destruct (N.eqb_spec x k);
             [repeat (constructor; [lia |]); constructor |]
         end.
  destruct (N.ltb_spec c 32); [apply unicode_escape_printable |].
  constructor; [assumption | constructor].
Qed.

Lemma quote_units_printable_len (n : nat) :
  forall s, (length s <= n)%nat -> Forall (fun u => 32 <= u) (quote_units s).
Proof.
  induction n as [| n IH]; intros s Hlen.
  - destruct s; [constructor | simpl in Hlen; lia].
  - destruct s as [| c s]; [constructor |]. simpl in Hlen.
    cbn [quote_units].
    destruct (is_high c) eqn:Hh.
    + destruct s as [| d s']; [apply unicode_escape_printable |].
      destruct (is_low d) eqn:Hl.
      * unfold is_high in Hh. unfold is_low in Hl.
        apply andb_true_iff in Hh as [Hh _], Hl as [Hl _].
        apply N.leb_le in Hh, Hl.
        constructor; [lia |]. constructor; [lia |].
        apply IH. simpl in Hlen. lia.
      * apply Forall_app. split; [apply unicode_escape_printable |].
        apply IH. lia.
    + destruct (is_low c).
      * apply Forall_app. split; [apply unicode_escape_printable |].
        apply IH. lia.
      * apply Forall_app. split; [apply quote_unit_printable |].
        apply IH. lia.
Qed.

Lemma QuoteJSONString_printable (s : jsstring) :
  Forall (fun u => 32 <= u) (QuoteJSONString s).
Proof.
  unfold QuoteJSONString. constructor; [lia |].
  apply Forall_app. split.
  - now apply (quote_units_printable_len (length s)).
  - constructor; [lia | constructor].
Qed.

Lemma number_to_string_printable (z : Z) :
  Forall (fun u => 32 <= u) (number_to_string z).
Proof.
  assert (Hd : forall n, Forall (fun u => 32 <= u) (digits n)).
  { intros n. unfold digits. apply Forall_map, Forall_forall. intros; lia. }
  destruct z; cbn [number_to_string]; [apply Hd | apply Hd |].
  constructor; [lia | apply Hd].
Qed.

Lemma stringify_expense_printable (x : Expense.t) :
  Forall (fun u => 32 <= u) (stringify_expense x).
Proof.
  unfold stringify_expense.
  repeat (apply Forall_app; split);
    try apply QuoteJSONString_printable;
    try apply number_to_string_printable;
    (constructor; [vm_compute; discriminate | constructor]).
Qed.

(** X14: whatever the amounts, dates and notes contain, the text the save
    effect stores has no control character in it: no code unit below 32,
    so no raw line break or tab. *)
Theorem JSON_stringify_printable (l : list Expense.t) :
  Forall (fun u => 32 <= u) (JSON_stringify l).
Proof.
  unfold JSON_stringify. constructor; [lia |].
  apply Forall_app. split; [| constructor; [lia | constructor]].
  induction l as [| x l IH]; [constructor |].
  pose proof (stringify_expense_printable x) as Hx.
  destruct l as [| y l]; [exact Hx |].
  change (join_commas (map stringify_expense (x :: y :: l)))
    with (stringify_expense x ++
          44 :: join_commas (map stringify_expense (y :: l))).
  apply Forall_app. split; [exact Hx |]. constructor; [lia | exact IH].
Qed.

End Storage.
